(** * Quiz parsing and quiz submission: a shallow embedding

    The development follows two pieces of the repository:

    - [scripts/parse-quizzes.ts]: [extractChapterId] and [parseQuizFile],
      the line-oriented markdown quiz parser;
    - [components/QuizInterface.tsx]: the answer-selection state of the quiz
      component and the payload its submit handler sends.

    JavaScript strings are sequences of UTF-16 code units, and every string
    operation of the parser ([trim], [substring], [startsWith], the regular
    expressions without the [u] flag) works on code units.  A string is
    therefore a [list N], one element per code unit. *)

From Stdlib Require Import NArith Ascii String DecimalString DecimalN Sorted.
From stdpp Require Import gmap list fin_maps sets.

Local Open Scope N_scope.

(** ** Strings as code units *)

Abbreviation jsstring := (list N).

Module JS.

(** An ASCII literal, one code unit per character. *)
Definition lit (s : string) : jsstring :=
  map N_of_ascii (list_ascii_of_string s).

Definition code_eqb (a b : N) : bool := N.eqb a b.

Fixpoint str_eqb (a b : jsstring) : bool :=
  match a, b with
  | [], [] => true
  | x :: a', y :: b' => code_eqb x y && str_eqb a' b'
  | _, _ => false
  end.

(** Truthiness of a string: only the empty string is falsy. *)
Definition truthy (s : jsstring) : bool :=
  match s with [] => false | _ :: _ => true end.

(** Truthiness of an array: an array is an object, so it is truthy even
    when it has no element. *)
Definition array_truthy {A} (_ : list A) : bool := true.

(** [a || b] on strings. *)
Definition or_else (a b : jsstring) : jsstring :=
  if truthy a then a else b.

(** ECMAScript LineTerminator code units. *)
Definition is_line_terminator (c : N) : bool :=
  (c =? 10) || (c =? 13) || (c =? 0x2028) || (c =? 0x2029).

(** ECMAScript WhiteSpace and LineTerminator code units: what [trim]
    strips and what [\s] matches. *)
Definition is_space (c : N) : bool :=
  (c =? 9) || (c =? 10) || (c =? 11) || (c =? 12) || (c =? 13) || (c =? 32)
  || (c =? 0xA0) || (c =? 0x1680) || ((0x2000 <=? c) && (c <=? 0x200A))
  || (c =? 0x2028) || (c =? 0x2029) || (c =? 0x202F) || (c =? 0x205F)
  || (c =? 0x3000) || (c =? 0xFEFF).

Definition is_digit (c : N) : bool := (48 <=? c) && (c <=? 57).

(** The class [[A-D]]. *)
Definition is_A_to_D (c : N) : bool := (65 <=? c) && (c <=? 68).

(** The class [.] (no [s] flag). *)
Definition is_dot (c : N) : bool := negb (is_line_terminator c).

Fixpoint trimStart (s : jsstring) : jsstring :=
  match s with
  | c :: s' => if is_space c then trimStart s' else s
  | [] => []
  end.

Fixpoint trimEnd (s : jsstring) : jsstring :=
  match s with
  | [] => []
  | c :: s' =>
      match trimEnd s' with
      | [] => if is_space c then [] else [c]
      | t => c :: t
      end
  end.

Definition trim (s : jsstring) : jsstring := trimEnd (trimStart s).

Fixpoint startsWith (s p : jsstring) : bool :=
  match p, s with
  | [], _ => true
  | x :: p', y :: s' => code_eqb x y && startsWith s' p'
  | _ :: _, [] => false
  end.

Fixpoint includes (s p : jsstring) : bool :=
  startsWith s p ||
  match s with
  | [] => false
  | _ :: s' => includes s' p
  end.

(** [s.substring(0, n)]. *)
Definition substring0 (n : nat) (s : jsstring) : jsstring := take n s.

(** [s.split(sep)] for a separator that is one code unit out of a set: the
    string ['\n'] or the class [[\/\\]].  The result always has at least one
    piece. *)
Fixpoint split (sep : N -> bool) (s : jsstring) : list jsstring :=
  match s with
  | [] => [[]]
  | c :: s' =>
      if sep c then [] :: split sep s'
      else match split sep s' with
           | piece :: pieces => (c :: piece) :: pieces
           | [] => [[c]]
           end
  end.

(** [pieces.join(sep)]. *)
Fixpoint join (sep : jsstring) (pieces : list jsstring) : jsstring :=
  match pieces with
  | [] => []
  | [p] => p
  | p :: rest => p ++ sep ++ join sep rest
  end.

(** [s.replace(p, '')] for a string pattern [p]: only the first occurrence
    is removed. *)
Fixpoint remove_first (p s : jsstring) : jsstring :=
  if startsWith s p then drop (length p) s
  else match s with
       | [] => []
       | c :: s' => c :: remove_first p s'
       end.

(** [parts.find(pred)]. *)
Fixpoint find {A} (pred : A -> bool) (l : list A) : option A :=
  match l with
  | [] => None
  | x :: l' => if pred x then Some x else find pred l'
  end.

(** Decimal rendering of a non-negative integer, as a template literal
    prints it. *)
Definition of_number (n : N) : jsstring :=
  lit (NilEmpty.string_of_uint (N.to_uint n)).

(** [parseInt] on a string of decimal digits.  Numbers are unbounded here;
    in the program they are doubles, exact below [2^53]. *)
Definition parseInt (digits : jsstring) : N :=
  fold_left (fun acc c => 10 * acc + (c - 48)) digits 0.

End JS.

(** ** Regular expressions

    The fragment the parser uses: literal code units, classes, greedy [+] on
    a class, sequencing and capture groups that are not nested inside a
    quantifier.  Matching backtracks as the ECMAScript matcher does, in
    continuation-passing style. *)

Module Regex.

Inductive re : Type :=
| Lit (s : jsstring)
| Cls (p : N -> bool)
| Plus (p : N -> bool)
| Seq (r1 r2 : re)
| Grp (r : re).

(** A regular expression written as the sequence of its parts. *)
Definition cat (rs : list re) : re := foldr Seq (Lit []) rs.

Section Matcher.
Context {A : Type}.

(** Greedy [p+]: take one code unit, then prefer taking more; give back
    one code unit at a time when the continuation fails. *)
Fixpoint plus (p : N -> bool) (k : jsstring -> option A) (s : jsstring)
  : option A :=
  match s with
  | c :: s' =>
      if p c then
        match plus p k s' with
        | Some a => Some a
        | None => k s'
        end
      else None
  | [] => None
  end.

(** [run r s caps k]: match [r] at the start of [s]; [caps] are the
    groups closed so far, in order; [k] continues on the rest. *)
Fixpoint run (r : re) (s : jsstring) (caps : list jsstring)
    (k : jsstring -> list jsstring -> option A) : option A :=
  match r with
  | Lit l => if JS.startsWith s l then k (drop (length l) s) caps else None
  | Cls p =>
      match s with
      | c :: s' => if p c then k s' caps else None
      | [] => None
      end
  | Plus p => plus p (fun s' => k s' caps) s
  | Seq r1 r2 => run r1 s caps (fun s' caps' => run r2 s' caps' k)
  | Grp r1 =>
      run r1 s caps
        (fun s' caps' => k s' (caps' ++ [take (length s - length s') s]))
  end.
End Matcher.

(** A match at the start of [s]: the captured groups and the unmatched
    rest. *)
Definition match_here (r : re) (s : jsstring)
  : option (list jsstring * jsstring) :=
  run r s [] (fun s' caps => Some (caps, s')).

(** [s.match(/^r/)]: the groups [1..n], or [None] for [null]. *)
Definition match_start (r : re) (s : jsstring) : option (list jsstring) :=
  fst <$> match_here r s.

(** [s.match(/r/)]: the leftmost match. *)
Fixpoint match_any (r : re) (s : jsstring) : option (list jsstring) :=
  match match_here r s with
  | Some (caps, _) => Some caps
  | None =>
      match s with
      | [] => None
      | _ :: s' => match_any r s'
      end
  end.

(** [s.replace(/r/g, '')] for an [r] that never matches the empty string:
    [skip] counts the code units of the current match still to drop. *)
Fixpoint remove_all_from (r : re) (skip : nat) (s : jsstring) : jsstring :=
  match s with
  | [] => []
  | c :: s' =>
      match skip with
      | S n => remove_all_from r n s'
      | O =>
          match match_here r s with
          | Some (_, rest) =>
              remove_all_from r (length s - length rest - 1) s'
          | None => c :: remove_all_from r 0 s'
          end
      end
  end.

Definition remove_all (r : re) (s : jsstring) : jsstring :=
  remove_all_from r 0 s.

End Regex.

Import JS Regex.

(** ** The parser's records *)

Record QuizOption := mkOption {
  key : jsstring;
  text : jsstring
}.

Record QuizQuestion := mkQuestion {
  id : jsstring;
  question : jsstring;
  options : list QuizOption;
  correct_answer : jsstring;
  explanation : jsstring
}.

Record ParsedQuiz := mkQuiz {
  chapter_id : jsstring;
  title : jsstring;
  description : jsstring;
  passing_percentage : N;
  questions : list QuizQuestion
}.

(** ** [extractChapterId] *)

Definition is_path_separator (c : N) : bool := (c =? 47) || (c =? 92).

Definition extractChapterId (filePath : jsstring) : jsstring :=
  let parts := split is_path_separator filePath in
  let chapterPart := find (fun p => startsWith p (lit "chapter-")) parts in
  let fileName := remove_first (lit ".md") (List.last parts []) in
  match chapterPart with
  | Some p => if truthy p then p ++ lit "-quiz" else fileName
  | None => fileName
  end.

(** ** Console and file system

    [parseQuizFile] reads one file and writes warnings to the console; it
    touches nothing else.  [fs] maps the path of each readable file to its
    decoded text; [readFileSync] throws on any other path. *)

Module Console.
Inductive msg : Type :=
| NoQuestionsFound (filePath : jsstring)
| QuestionsMissingAnswers (count : nat) (filePath : jsstring)
| ErrorParsing (filePath : jsstring).
End Console.

Record World := mkWorld {
  fs : gmap jsstring jsstring;
  console : list Console.msg
}.

Definition readFileSync (w : World) (filePath : jsstring) : option jsstring :=
  fs w !! filePath.

Definition console_log (m : Console.msg) (w : World) : World :=
  {| fs := fs w; console := console w ++ [m] |}.

(** ** [parseQuizFile]: title and description *)

(** The class of the title's decorations, U+1F3AF and U+2728, in a regular
    expression without the [u] flag: both halves of the surrogate pair
    D83C DFAF, and 2728. *)
Definition is_title_decoration (c : N) : bool :=
  (c =? 0xD83C) || (c =? 0xDFAF) || (c =? 0x2728).

(** The heading of the questions section: ["## "], U+1F4DD (the pair
    D83D DCDD), [" Questions"]. *)
Definition questions_marker : jsstring :=
  lit "## " ++ [0xD83D; 0xDCDD] ++ lit " Questions".

(** The first loop: the first line that starts with ['# '] gives the title
    and ends the loop. *)
Fixpoint extract_title (title : jsstring) (lines : list jsstring) : jsstring :=
  match lines with
  | [] => title
  | line :: rest =>
      if startsWith line (lit "# ") && negb (truthy title) then
        trim (remove_all (Cls is_title_decoration)
                (remove_first (lit "# ") line))
      else extract_title title rest
  end.

(** The second loop, with its [continue] and [break]. *)
Fixpoint description_loop (inDescription : bool) (description : jsstring)
    (lines : list jsstring) : jsstring :=
  match lines with
  | [] => description
  | line :: rest =>
      if startsWith line (lit "# ") && negb inDescription then
        description_loop true description rest
      else if inDescription && includes line questions_marker then
        description
      else if inDescription && truthy (trim line)
              && negb (startsWith line (lit "**"))
              && negb (startsWith line (lit "-"))
              && negb (startsWith line (lit "#")) then
        description_loop inDescription (description ++ trim line ++ lit " ")
          rest
      else description_loop inDescription description rest
  end.

Definition extract_description (lines : list jsstring) : jsstring :=
  substring0 200 (trim (description_loop false [] lines)).

(** ** [parseQuizFile]: the question scan *)

Module Answer.
Record data := mk { answer : jsstring; explanation : jsstring }.
End Answer.

Module Scan.
Record state := mk {
  currentQuestion : option QuizQuestion;
  questionNumber : N;
  questions : list QuizQuestion;
  answers : gmap N Answer.data
}.

Definition init : state :=
  {| currentQuestion := None; questionNumber := 0; questions := [];
     answers := ∅ |}.
End Scan.

Definition push_option (o : QuizOption) (q : QuizQuestion) : QuizQuestion :=
  {| id := id q; question := question q; options := options q ++ [o];
     correct_answer := correct_answer q; explanation := explanation q |}.

Definition set_correct_answer (a : jsstring) (q : QuizQuestion) : QuizQuestion :=
  {| id := id q; question := question q; options := options q;
     correct_answer := a; explanation := explanation q |}.

Definition set_explanation (e : jsstring) (q : QuizQuestion) : QuizQuestion :=
  {| id := id q; question := question q; options := options q;
     correct_answer := correct_answer q; explanation := e |}.

Definition with_current (f : QuizQuestion -> QuizQuestion) (st : Scan.state)
  : Scan.state :=
  {| Scan.currentQuestion := f <$> Scan.currentQuestion st;
     Scan.questionNumber := Scan.questionNumber st;
     Scan.questions := Scan.questions st;
     Scan.answers := Scan.answers st |}.

(** [m[i]] for a successful match [m], groups numbered from 1. *)
Definition group (i : nat) (m : list jsstring) : jsstring :=
  nth (i - 1) m [].

(** [/^### Question (\d+):/] *)
Definition re_heading : re :=
  cat [Lit (lit "### Question "); Grp (Plus is_digit); Lit (lit ":")].

(** [/^\*\*([A-D])\)\*\*\s+(.+)/] *)
Definition re_option_bold : re :=
  cat [Lit (lit "**"); Grp (Cls is_A_to_D); Lit (lit ")**"); Plus is_space;
       Grp (Plus is_dot)].

(** [/^([A-D])\)\s+(.+)/] *)
Definition re_option_plain : re :=
  cat [Grp (Cls is_A_to_D); Lit (lit ")"); Plus is_space; Grp (Plus is_dot)].

(** [/\*\*Answer:\s+([A-D])\)/] *)
Definition re_answer : re :=
  cat [Lit (lit "**Answer:"); Plus is_space; Grp (Cls is_A_to_D);
       Lit (lit ")")].

(** [/\*\*Explanation:\*\*\s+(.+)/] *)
Definition re_explanation : re :=
  cat [Lit (lit "**Explanation:**"); Plus is_space; Grp (Plus is_dot)].

(** [/^\d+\.\s+\*\*[A-D]\*\*/] *)
Definition re_key_line : re :=
  cat [Plus is_digit; Lit (lit "."); Plus is_space; Lit (lit "**");
       Cls is_A_to_D; Lit (lit "**")].

(** [/^(\d+)\.\s+\*\*([A-D])\*\*\s+-\s+(.+)/] *)
Definition re_key_entry : re :=
  cat [Grp (Plus is_digit); Lit (lit "."); Plus is_space; Lit (lit "**");
       Grp (Cls is_A_to_D); Lit (lit "**"); Plus is_space; Lit (lit "-");
       Plus is_space; Grp (Plus is_dot)].

(** The test guarding both pushes:
    [currentQuestion && currentQuestion.question && currentQuestion.options]. *)
Definition complete (q : QuizQuestion) : bool :=
  truthy (question q) && array_truthy (options q).

Definition finalize (cur : option QuizQuestion) (qs : list QuizQuestion)
  : list QuizQuestion :=
  match cur with
  | Some q => if complete q then qs ++ [q] else qs
  | None => qs
  end.

Definition is_colon (c : N) : bool := c =? 58.

(** The question a heading line opens; [next] is [lines[i + 1]]. *)
Definition new_question (questionNumber : N) (line : jsstring)
    (next : option jsstring) : QuizQuestion :=
  let questionTitle := trim (join (lit ":") (drop 1 (split is_colon line))) in
  let questionText :=
    match next with
    | Some l => or_else (trim (remove_all (Lit (lit "**")) l)) questionTitle
    | None => questionTitle
    end in
  {| id := lit "q" ++ of_number questionNumber;
     question := questionText;
     options := [];
     correct_answer := [];
     explanation := [] |}.

Definition on_heading (line : jsstring) (next : option jsstring)
    (st : Scan.state) : Scan.state :=
  match match_start re_heading line with
  | Some _ =>
      let questions :=
        finalize (Scan.currentQuestion st) (Scan.questions st) in
      let questionNumber := Scan.questionNumber st + 1 in
      {| Scan.currentQuestion := Some (new_question questionNumber line next);
         Scan.questionNumber := questionNumber;
         Scan.questions := questions;
         Scan.answers := Scan.answers st |}
  | None => st
  end.

Definition on_option (line : jsstring) (st : Scan.state) : Scan.state :=
  let optionMatch :=
    match match_start re_option_bold line with
    | Some m => Some m
    | None => match_start re_option_plain line
    end in
  match optionMatch with
  | Some m =>
      with_current
        (push_option {| key := group 1 m; text := trim (group 2 m) |}) st
  | None => st
  end.

Definition on_answer (line : jsstring) (st : Scan.state) : Scan.state :=
  match match_any re_answer line with
  | Some m => with_current (set_correct_answer (group 1 m)) st
  | None => st
  end.

Definition on_explanation (line : jsstring) (st : Scan.state) : Scan.state :=
  match match_any re_explanation line with
  | Some m => with_current (set_explanation (trim (group 1 m))) st
  | None => st
  end.

Definition on_key_line (line : jsstring) (st : Scan.state) : Scan.state :=
  match match_start re_key_line line with
  | Some _ =>
      match match_start re_key_entry line with
      | Some m =>
          let num := parseInt (group 1 m) in
          {| Scan.currentQuestion := Scan.currentQuestion st;
             Scan.questionNumber := Scan.questionNumber st;
             Scan.questions := Scan.questions st;
             Scan.answers :=
               <[num := Answer.mk (group 2 m) (trim (group 3 m))]>
                 (Scan.answers st) |}
      | None => st
      end
  | None => st
  end.

(** One iteration of the third loop, on the trimmed line. *)
Definition step (line : jsstring) (next : option jsstring) (st : Scan.state)
  : Scan.state :=
  on_key_line line
    (on_explanation line
       (on_answer line
          (on_option line
             (on_heading line next st)))).

(** The third loop over [lines[i..]]: [head rest] is [lines[i + 1]]. *)
Fixpoint scan (lines : list jsstring) (st : Scan.state) : Scan.state :=
  match lines with
  | [] => st
  | raw :: rest => scan rest (step (trim raw) (head rest) st)
  end.

(** The questions once the last one has been added. *)
Definition scanned_questions (st : Scan.state) : list QuizQuestion :=
  finalize (Scan.currentQuestion st) (Scan.questions st).

(** [questions.forEach((q, index) => ...)] against the answer-key map. *)
Definition match_answers (answers : gmap N Answer.data)
    (qs : list QuizQuestion) : list QuizQuestion :=
  imap (fun index q =>
          match answers !! N.of_nat (index + 1) with
          | Some answerData =>
              set_explanation (Answer.explanation answerData)
                (set_correct_answer (Answer.answer answerData) q)
          | None => q
          end) qs.

(** The predicate of [invalidQuestions]. *)
Definition is_invalid (q : QuizQuestion) : bool :=
  negb (truthy (correct_answer q)) || Nat.eqb (length (options q)) 0.

Definition is_newline (c : N) : bool := c =? 10.

Definition lines_of (content : jsstring) : list jsstring :=
  split is_newline content.

(** The questions of a document, after the answer key has been applied. *)
Definition parsed_questions (lines : list jsstring) : list QuizQuestion :=
  let st := scan lines Scan.init in
  match_answers (Scan.answers st) (scanned_questions st).

Definition parseQuizFile (filePath : jsstring) (w : World)
  : option ParsedQuiz * World :=
  match readFileSync w filePath with
  | None => (None, console_log (Console.ErrorParsing filePath) w)
  | Some content =>
      let lines := lines_of content in
      let chapter_id := extractChapterId filePath in
      let title := extract_title [] lines in
      let description := extract_description lines in
      let questions := parsed_questions lines in
      if Nat.eqb (length questions) 0 then
        (None, console_log (Console.NoQuestionsFound filePath) w)
      else
        let invalidQuestions := List.filter is_invalid questions in
        let w' :=
          if Nat.ltb 0 (length invalidQuestions) then
            console_log
              (Console.QuestionsMissingAnswers (length invalidQuestions)
                 filePath) w
          else w in
        (Some {| chapter_id := chapter_id;
                 title := or_else title (lit "Quiz");
                 description :=
                   or_else description (lit "Test your knowledge!");
                 passing_percentage := 70;
                 questions := questions |}, w')
  end.

(** ** Sample documents *)

Definition unlines (ls : list jsstring) : jsstring := join [10] ls.

(** A world with one readable file. *)
Definition one_file (path content : jsstring) : World :=
  {| fs := {[path := content]}; console := [] |}.

Definition sample_path : jsstring :=
  lit "docs/part-2/chapter-02-markdown/06-quiz-markdown.md".

Definition sample_doc : jsstring :=
  unlines [lit "# Chapter Quiz"; lit ""; lit "Check what you learned."; lit "";
           questions_marker; lit "";
           lit "### Question 1: Topic"; lit "**Which one?**"; lit "";
           lit "A) x"; lit "B) y"; lit ""; lit "**Answer: B)**";
           lit "**Explanation:** Because y."].

(** What [sample_doc] parses to. *)
Definition sample_quiz : ParsedQuiz :=
  {| chapter_id := lit "chapter-02-markdown-quiz";
     title := lit "Chapter Quiz";
     description := lit "Check what you learned.";
     passing_percentage := 70;
     questions :=
       [{| id := lit "q1"; question := lit "Which one?";
           options := [{| key := lit "A"; text := lit "x" |};
                       {| key := lit "B"; text := lit "y" |}];
           correct_answer := lit "B"; explanation := lit "Because y." |}] |}.

(** A first heading with no question text, then a well-formed question. *)
Definition skipping_doc : jsstring :=
  unlines [lit "# Quiz"; questions_marker;
           lit "### Question 1:"; lit "";
           lit "### Question 2: Topic"; lit "**Which one?**";
           lit "A) x"; lit "**Answer: A)**"].

Definition skipping_quiz : ParsedQuiz :=
  {| chapter_id := lit "quiz";
     title := lit "Quiz";
     description := lit "Test your knowledge!";
     passing_percentage := 70;
     questions :=
       [{| id := lit "q2"; question := lit "Which one?";
           options := [{| key := lit "A"; text := lit "x" |}];
           correct_answer := lit "A"; explanation := [] |}] |}.

(** A document with no question heading. *)
Definition prose_doc : jsstring :=
  unlines [lit "# Notes"; lit ""; lit "Nothing to ask here."].

(** An inline answer and a trailing answer key for the same question. *)
Definition both_forms_doc : jsstring :=
  unlines [lit "# Quiz"; questions_marker;
           lit "### Question 1: Topic"; lit "**Which one?**";
           lit "A) x"; lit "B) y";
           lit "**Answer: B)**"; lit "**Explanation:** inline";
           lit "## Answer Key"; lit "1. **A** - legacy"].

(** A question heading followed by its text and no option line. *)
Definition no_options_doc : jsstring :=
  unlines [lit "# Quiz"; questions_marker;
           lit "### Question 1: Topic"; lit "**Which one?**"].

(** What [no_options_doc] parses to. *)
Definition no_options_quiz : ParsedQuiz :=
  {| chapter_id := lit "quiz";
     title := lit "Quiz";
     description := lit "Test your knowledge!";
     passing_percentage := 70;
     questions :=
       [{| id := lit "q1"; question := lit "Which one?";
           options := []; correct_answer := []; explanation := [] |}] |}.





(** Three question headings; the second has no title and is followed by a
    blank line, so that its question has no text. *)
Definition gapped_doc : jsstring :=
  unlines [lit "# Quiz"; questions_marker;
           lit "### Question 1: First"; lit "**Which one?**";
           lit "A) x"; lit "**Answer: A)**";
           lit "### Question 2:"; lit "";
           lit "### Question 3: Third"; lit "**Which three?**";
           lit "B) y"; lit "**Answer: B)**"].

(** What [gapped_doc] parses to. *)
Definition gapped_quiz : ParsedQuiz :=
  {| chapter_id := lit "quiz";
     title := lit "Quiz";
     description := lit "Test your knowledge!";
     passing_percentage := 70;
     questions :=
       [{| id := lit "q1"; question := lit "Which one?";
           options := [{| key := lit "A"; text := lit "x" |}];
           correct_answer := lit "A"; explanation := [] |};
        {| id := lit "q3"; question := lit "Which three?";
           options := [{| key := lit "B"; text := lit "y" |}];
           correct_answer := lit "B"; explanation := [] |}] |}.

(** A complete question, then a question without option lines, then a
    question without answer line. *)
Definition mixed_doc : jsstring :=
  unlines [lit "# Quiz"; questions_marker;
           lit "### Question 1: Topic"; lit "**Which one?**";
           lit "A) x"; lit "B) y"; lit "**Answer: A)**";
           lit "### Question 2: Topic"; lit "**Which two?**";
           lit "**Answer: B)**";
           lit "### Question 3: Topic"; lit "**Which three?**";
           lit "A) u"; lit "B) v"].

(** What [mixed_doc] parses to. *)
Definition mixed_quiz : ParsedQuiz :=
  {| chapter_id := lit "quiz";
     title := lit "Quiz";
     description := lit "Test your knowledge!";
     passing_percentage := 70;
     questions :=
       [{| id := lit "q1"; question := lit "Which one?";
           options := [{| key := lit "A"; text := lit "x" |};
                       {| key := lit "B"; text := lit "y" |}];
           correct_answer := lit "A"; explanation := [] |};
        {| id := lit "q2"; question := lit "Which two?";
           options := []; correct_answer := lit "B"; explanation := [] |};
        {| id := lit "q3"; question := lit "Which three?";
           options := [{| key := lit "A"; text := lit "u" |};
                       {| key := lit "B"; text := lit "v" |}];
           correct_answer := []; explanation := [] |}] |}.

(** An answer letter that names none of the question's options. *)
Definition stray_answer_doc : jsstring :=
  unlines [lit "# Quiz"; questions_marker;
           lit "### Question 1: Topic"; lit "**Which one?**";
           lit "A) x"; lit "B) y"; lit "**Answer: C)**"].

(** ** Readings of the specification, and what the parser does instead *)

(** What the answer key does to the question at 0-based position [index]. *)
Definition apply_key (answers : gmap N Answer.data) (index : nat)
    (q : QuizQuestion) : QuizQuestion :=
  match answers !! N.of_nat (index + 1) with
  | Some answerData =>
      {| id := id q; question := question q; options := options q;
         correct_answer := Answer.answer answerData;
         explanation := Answer.explanation answerData |}
  | None => q
  end.

(** The specification's reading: a value set by an inline annotation
    survives the answer-key pass. *)
Definition inline_takes_precedence : Prop :=
  forall (lines : list jsstring) (index : nat) (q q' : QuizQuestion),
    scanned_questions (scan lines Scan.init) !! index = Some q ->
    parsed_questions lines !! index = Some q' ->
    (correct_answer q <> [] -> correct_answer q' = correct_answer q) /\
    (explanation q <> [] -> explanation q' = explanation q).

(** The question [stray_answer_doc] parses to. *)
Definition stray_question : QuizQuestion :=
  {| id := lit "q1"; question := lit "Which one?";
     options := [{| key := lit "A"; text := lit "x" |};
                 {| key := lit "B"; text := lit "y" |}];
     correct_answer := lit "C"; explanation := [] |}.

(** Whether the correct-answer key is the key of one of the question's own
    options. *)
Definition answer_among_options (q : QuizQuestion) : bool :=
  existsb (fun o => str_eqb (key o) (correct_answer q)) (options q).

(** The specification's reading: a question whose answer key names none of
    its options is counted by the warning. *)
Definition stray_answers_flagged : Prop :=
  forall filePath w quiz w' q,
    parseQuizFile filePath w = (Some quiz, w') ->
    In q (questions quiz) ->
    answer_among_options q = false ->
    is_invalid q = true.

(** The specification's reading: only a question with text and at least one
    option reaches the output list. *)
Definition finalized_needs_option : Prop :=
  forall (lines : list jsstring) (q : QuizQuestion),
    In q (scanned_questions (scan lines Scan.init)) ->
    question q <> [] /\ options q <> [].

(** Every question the scan ever held, in order.  [scan_recording] is the
    third loop with the test of its push removed: at a heading, and at the
    end, whatever question is current is recorded. *)
Definition on_heading_recording (line : jsstring) (next : option jsstring)
    (st : Scan.state) : Scan.state :=
  match match_start re_heading line with
  | Some _ =>
      let questionNumber := Scan.questionNumber st + 1 in
      {| Scan.currentQuestion := Some (new_question questionNumber line next);
         Scan.questionNumber := questionNumber;
         Scan.questions :=
           Scan.questions st ++ option_list (Scan.currentQuestion st);
         Scan.answers := Scan.answers st |}
  | None => st
  end.

Definition step_recording (line : jsstring) (next : option jsstring)
    (st : Scan.state) : Scan.state :=
  on_key_line line
    (on_explanation line
       (on_answer line
          (on_option line
             (on_heading_recording line next st)))).

Fixpoint scan_recording (lines : list jsstring) (st : Scan.state)
  : Scan.state :=
  match lines with
  | [] => st
  | raw :: rest =>
      scan_recording rest (step_recording (trim raw) (head rest) st)
  end.

Definition candidates (lines : list jsstring) : list QuizQuestion :=
  let st := scan_recording lines Scan.init in
  Scan.questions st ++ option_list (Scan.currentQuestion st).

(** Two states that agree except on the finalized list, where the first
    holds the complete questions of the second. *)
Definition filtered (st st' : Scan.state) : Prop :=
  Scan.currentQuestion st = Scan.currentQuestion st' /\
  Scan.questionNumber st = Scan.questionNumber st' /\
  Scan.answers st = Scan.answers st' /\
  Scan.questions st = List.filter complete (Scan.questions st').

(** The identifier given to the question of the [n]-th heading. *)
Definition question_id (n : N) : jsstring := lit "q" ++ of_number n.

(** ** The numbering of the questions *)

(** Whether a line, once trimmed, is a question heading. *)
Definition is_question_heading (raw : jsstring) : bool :=
  match match_start re_heading (trim raw) with
  | Some _ => true
  | None => false
  end.

Definition heading_count (lines : list jsstring) : nat :=
  length (List.filter is_question_heading lines).

(** The identifier and the text of a question. *)
Definition id_and_text (q : QuizQuestion) : jsstring * jsstring :=
  (id q, question q).

(** The questions a scan has recorded, the current one last. *)
Definition recorded (st : Scan.state) : list QuizQuestion :=
  Scan.questions st ++ option_list (Scan.currentQuestion st).

(** The numbering as the specification words it: a counter that goes up by
    one at every question heading, and gives its value to the identifier of
    the question the heading opens.  For a counter that stands at
    [questionNumber], [numbered_headings] lists, heading by heading, that
    identifier and the text of the question opened. *)
Fixpoint numbered_headings (questionNumber : N) (lines : list jsstring)
  : list (jsstring * jsstring) :=
  match lines with
  | [] => []
  | raw :: rest =>
      if is_question_heading raw then
        (question_id (questionNumber + 1),
         question (new_question (questionNumber + 1) (trim raw) (head rest)))
        :: numbered_headings (questionNumber + 1) rest
      else numbered_headings questionNumber rest
  end.

(** The numbers [n + 1], ..., [n + count]. *)
Definition heading_numbers (n : N) (count : nat) : list N :=
  map (fun k => n + N.of_nat k) (seq 1 count).

(** ** The description

    The parser's second loop, read as a selection of lines: the lines after
    the first line that starts with ["# "], up to the first line that
    contains the marker ["## 📝 Questions"] or to the end of the document
    when no line does; of these, the lines that are not blank and whose
    untrimmed text starts with none of ["**"], ["-"] and ["#"]; each
    trimmed, joined with single spaces and cut to 200 code units.  The four
    tests of [plain_text] are the loop's tests. *)
Fixpoint after_title (lines : list jsstring) : list jsstring :=
  match lines with
  | [] => []
  | line :: rest =>
      if startsWith line (lit "# ") then rest else after_title rest
  end.

Fixpoint before_questions (lines : list jsstring) : list jsstring :=
  match lines with
  | [] => []
  | line :: rest =>
      if includes line questions_marker then []
      else line :: before_questions rest
  end.

Definition plain_text (line : jsstring) : bool :=
  truthy (trim line)
  && negb (startsWith line (lit "**"))
  && negb (startsWith line (lit "-"))
  && negb (startsWith line (lit "#")).

Definition description_lines (lines : list jsstring) : list jsstring :=
  map trim (List.filter plain_text (before_questions (after_title lines))).

Definition description_text (lines : list jsstring) : jsstring :=
  take 200 (join (lit " ") (description_lines lines)).










(** A string that does not start with a space. *)
Definition starts_tight (s : jsstring) : bool :=
  match s with
  | [] => true
  | c :: _ => negb (is_space c)
  end.

(** The file name without a final [".md"], for comparison with what
    [extractChapterId] computes. *)
Definition without_md_extension (name : jsstring) : jsstring :=
  if str_eqb (drop (length name - 3) name) (lit ".md")
  then take (length name - 3) name
  else name.

(** ** The quiz component

    [QuizInterface] keeps the selected answers in a state object keyed by
    question identifier and sends them when the submit button is clicked.
    The component is modelled as a transition function on its state, given
    the [questions] prop of the current render.  An event is a click the
    rendered view offers, the completion of a pending request, or a render of
    the mounted instance with another [questions] prop: the reader page
    renders the component without a key from the quiz data it fetched last,
    so a later response replaces the questions and leaves the state as it
    is.  [None] means that the view does not offer the event (the button is
    disabled or not rendered), or that the render throws: the quiz-taking
    view reads [currentQuestion.question], and [currentQuestion] is
    undefined when the index is outside the questions. *)

Module QuizInterface.

Record QuizQuestion := mkQuestion {
  id : jsstring;
  question : jsstring;
  options : list QuizOption;
  correct_answer : option jsstring;
  explanation : option jsstring
}.

(** The scored quiz the server answers with; the component only shows
    it. *)
Record ScoredQuiz := mkScored {
  attempt_number : N;
  total_questions : N;
  correct_answers : N;
  score_percentage : N;
  passed : bool
}.

Record State := mkState {
  currentQuestionIndex : nat;
  answers : gmap jsstring jsstring;
  isSubmitting : bool;
  results : option ScoredQuiz
}.

(** One element of [submissionData.answers]. *)
Record SubmittedAnswer := mkAnswer {
  question_id : jsstring;
  selected_answer : jsstring
}.

Inductive event : Type :=
| SelectOption (i : nat)   (** the radio button of the [i]-th option shown *)
| ClickNext
| ClickPrevious
| ClickSubmit
| ClickRetake
| SubmitSucceeded (scoredQuiz : ScoredQuiz)
| SubmitFailed
| QuestionsChanged (newQuestions : list QuizQuestion).

(** The [questions] prop after an event. *)
Definition questions_after (questions : list QuizQuestion) (e : event)
  : list QuizQuestion :=
  match e with
  | QuestionsChanged newQuestions => newQuestions
  | _ => questions
  end.

(** An event that leaves the [questions] prop as it is. *)
Definition keeps_questions (e : event) : bool :=
  match e with
  | QuestionsChanged _ => false
  | _ => true
  end.

Definition init : State :=
  {| currentQuestionIndex := 0; answers := ∅; isSubmitting := false;
     results := None |}.

Section Component.
Variable questions : list QuizQuestion.

Definition answeredCount (s : State) : nat := size (answers s).

Definition allAnswered (s : State) : bool :=
  Nat.eqb (answeredCount s) (length questions).

(** [Object.entries(answers).map(...)]; the order of the entries is
    the map's. *)
Definition submitted_answers (s : State) : list SubmittedAnswer :=
  map (fun entry => {| question_id := fst entry;
                       selected_answer := snd entry |})
      (map_to_list (answers s)).

Definition handleAnswerSelect (questionId answerKey : jsstring)
    (s : State) : State :=
  {| currentQuestionIndex := currentQuestionIndex s;
     answers := <[questionId := answerKey]> (answers s);
     isSubmitting := isSubmitting s;
     results := results s |}.

Definition handleNext (s : State) : State :=
  if Nat.ltb (currentQuestionIndex s + 1) (length questions) then
    {| currentQuestionIndex := currentQuestionIndex s + 1;
       answers := answers s; isSubmitting := isSubmitting s;
       results := results s |}
  else s.

Definition handlePrevious (s : State) : State :=
  if Nat.ltb 0 (currentQuestionIndex s) then
    {| currentQuestionIndex := currentQuestionIndex s - 1;
       answers := answers s; isSubmitting := isSubmitting s;
       results := results s |}
  else s.

Definition handleRetake (s : State) : State :=
  {| currentQuestionIndex := 0; answers := ∅;
     isSubmitting := isSubmitting s; results := None |}.

Definition set_submitting (b : bool) (s : State) : State :=
  {| currentQuestionIndex := currentQuestionIndex s;
     answers := answers s; isSubmitting := b; results := results s |}.

Definition set_results (r : ScoredQuiz) (s : State) : State :=
  {| currentQuestionIndex := currentQuestionIndex s;
     answers := answers s; isSubmitting := isSubmitting s;
     results := Some r |}.

(** One event: the next state and the submission sent, if any. *)
Definition step (s : State) (e : event)
  : option (State * option (list SubmittedAnswer)) :=
  match e with
  | SubmitSucceeded scoredQuiz =>
      Some (set_submitting false (set_results scoredQuiz s), None)
  | SubmitFailed => Some (set_submitting false s, None)
  | QuestionsChanged newQuestions =>
      match results s, newQuestions !! currentQuestionIndex s with
      | None, None => None
      | _, _ => Some (s, None)
      end
  | ClickRetake =>
      match results s with
      | Some _ => Some (handleRetake s, None)
      | None => None
      end
  | _ =>
      match results s, questions !! currentQuestionIndex s with
      | None, Some currentQuestion =>
          match e with
          | SelectOption i =>
              match options currentQuestion !! i with
              | Some opt =>
                  Some (handleAnswerSelect (id currentQuestion)
                          (key opt) s, None)
              | None => None
              end
          | ClickNext =>
              if Nat.eqb (currentQuestionIndex s + 1) (length questions)
              then None
              else Some (handleNext s, None)
          | ClickPrevious =>
              if Nat.eqb (currentQuestionIndex s) 0 then None
              else Some (handlePrevious s, None)
          | ClickSubmit =>
              if negb (allAnswered s) || isSubmitting s then None
              else Some (set_submitting true s,
                         Some (submitted_answers s))
          | _ => None
          end
      | _, _ => None
      end
  end.

(** Every selected answer belongs to a question of the quiz. *)
Definition answers_for_questions (s : State) : Prop :=
  dom (answers s) ⊆ (list_to_set (map id questions) : gset jsstring).
End Component.

(** A sequence of events from a state, starting with the prop [questions]:
    the final state and the submissions sent on the way.  Each event is
    handled with the questions of the render it happens in. *)
Fixpoint run (questions : list QuizQuestion) (events : list event) (s : State)
  : option (State * list (list SubmittedAnswer)) :=
  match events with
  | [] => Some (s, [])
  | e :: events' =>
      match step questions s e with
      | Some (s', sent) =>
          match run (questions_after questions e) events' s' with
          | Some (s'', sents) => Some (s'', option_list sent ++ sents)
          | None => None
          end
      | None => None
      end
  end.

(** The questions of two quizzes: one with the single question q1, one
    with the questions q1 and q2. *)
Definition other_questions : list QuizQuestion :=
  [ {| id := lit "q1"; question := lit "Other?";
       options := [mkOption (lit "A") (lit "s"); mkOption (lit "B") (lit "t")];
       correct_answer := None; explanation := None |} ].

Definition sample_questions : list QuizQuestion :=
  [ {| id := lit "q1"; question := lit "First?";
       options := [mkOption (lit "A") (lit "x"); mkOption (lit "B") (lit "y")];
       correct_answer := None; explanation := None |};
    {| id := lit "q2"; question := lit "Second?";
       options := [mkOption (lit "A") (lit "u"); mkOption (lit "B") (lit "v")];
       correct_answer := None; explanation := None |} ].

End QuizInterface.

(** ** What a match consumes

    [matches r w caps caps']: the expression [r] matches exactly the code
    units [w], extending the closed groups [caps] to [caps'].  Every result
    of the backtracking matcher is such a match; the relation says nothing
    about which match a greedy [+] prefers. *)

Inductive matches : re -> jsstring -> list jsstring -> list jsstring -> Prop :=
| matches_lit l caps : matches (Lit l) l caps caps
| matches_cls (p : N -> bool) c caps :
    p c = true -> matches (Cls p) [c] caps caps
| matches_plus (p : N -> bool) w caps :
    w <> [] -> Forall (fun c => p c = true) w -> matches (Plus p) w caps caps
| matches_seq r1 r2 w1 w2 caps caps1 caps2 :
    matches r1 w1 caps caps1 -> matches r2 w2 caps1 caps2 ->
    matches (Seq r1 r2) (w1 ++ w2) caps caps2
| matches_grp r w caps caps1 :
    matches r w caps caps1 -> matches (Grp r) w caps (caps1 ++ [w]).

(** One letter out of A, B, C, D. *)
Definition is_answer_letter (s : jsstring) : bool :=
  match s with
  | [c] => is_A_to_D c
  | _ => false
  end.

(** A question whose option keys are answer letters and whose correct
    answer is empty or an answer letter. *)
Definition keys_are_letters (q : QuizQuestion) : Prop :=
  Forall (fun o => is_answer_letter (key o) = true) (options q).

Definition answer_is_letter_or_empty (q : QuizQuestion) : Prop :=
  correct_answer q = [] \/ is_answer_letter (correct_answer q) = true.

Definition well_keyed (q : QuizQuestion) : Prop :=
  keys_are_letters q /\ answer_is_letter_or_empty q.

(** The scan keeps every question it holds well keyed, and every entry of
    the answer key a letter. *)
Definition scan_well_keyed (st : Scan.state) : Prop :=
  Forall well_keyed (Scan.questions st) /\
  (forall q, Scan.currentQuestion st = Some q -> well_keyed q) /\
  map_Forall (fun _ a => is_answer_letter (Answer.answer a) = true)
    (Scan.answers st).

(** Before the first heading: no question yet. *)
Definition scan_idle (st : Scan.state) : Prop :=
  Scan.currentQuestion st = None /\ Scan.questions st = [] /\
  Scan.questionNumber st = 0.

(** Code units that are not removed from a title. *)
Definition kept_in_title (c : N) : bool := negb (is_title_decoration c).

(** A string with no white space at either end. *)
Definition is_trimmed (s : jsstring) : Prop :=
  starts_tight s = true /\ trimEnd s = s.

(** A string without path separator. *)
Definition separator_free (s : jsstring) : Prop :=
  Forall (fun c => is_path_separator c = false) s.

(** ** [findQuizFiles]

    A directory tree: [readdirSync] lists the names of a directory in the
    order of [Dir]'s list, and [statSync(...).isDirectory()] tells a
    directory from a [File].  Two kinds of entries make the calls throw: a
    [Dangling] entry is a name that [statSync] cannot resolve (a link
    without target, an entry removed since it was listed), and a [Locked]
    entry is a directory that [readdirSync] cannot read.  [path.join]
    belongs to Node's library and is a parameter of the model. *)

#[local] Unset Elimination Schemes.
Inductive node : Type :=
| File
| Dir (files : list (jsstring * node))
| Dangling
| Locked.
#[local] Set Elimination Schemes.

(** [s.endsWith(p)]. *)
Definition endsWith (s p : jsstring) : bool :=
  Nat.leb (length p) (length s) && str_eqb (drop (length s - length p) s) p.

(** The test a file name must pass to be listed. *)
Definition is_quiz_file_name (file : jsstring) : bool :=
  includes file (lit "quiz") && endsWith file (lit ".md").

(** [files.forEach(file => ...)] with the list being built passed along;
    [None] when the body throws. *)
Fixpoint forEach {S : Type} (body : jsstring -> node -> S -> option S)
    (files : list (jsstring * node)) (s : S) : option S :=
  match files with
  | [] => Some s
  | (file, n) :: rest =>
      match body file n s with
      | Some s' => forEach body rest s'
      | None => None
      end
  end.

Section FindQuizFiles.
Variable join : jsstring -> jsstring -> jsstring.

(** [findQuizFiles(dir, fileList)], where [d] is what [dir] names.  The
    array [fileList] is shared by all the calls and only grows; the model
    passes it through.  [readdirSync] throws on a path that is not a
    directory or cannot be read, [statSync] on a name it cannot resolve, and
    nothing catches: [None] stands for the exception that leaves the
    outermost call. *)
Fixpoint findQuizFiles (dir : jsstring) (d : node) (fileList : list jsstring)
  : option (list jsstring) :=
  match d with
  | File | Dangling | Locked => None
  | Dir files =>
      forEach
        (fun file n fileList =>
           let filePath := join dir file in
           match n with
           | Dangling => None
           | Dir _ | Locked => findQuizFiles filePath n fileList
           | File =>
               if includes file (lit "quiz") && endsWith file (lit ".md")
               then Some (fileList ++ [filePath])
               else Some fileList
           end)
        files fileList
  end.

(** A tree in which every name resolves and every directory can be read. *)
Fixpoint readable (d : node) : bool :=
  match d with
  | File => true
  | Dir files =>
      forallb (fun e => match e with (_, n) => readable n end) files
  | Dangling | Locked => false
  end.

(** The same listing without the shared array: the quiz files of a tree, in
    the order of the traversal. *)
Fixpoint quiz_files (dir : jsstring) (d : node) : list jsstring :=
  match d with
  | File | Dangling | Locked => []
  | Dir files =>
      flat_map
        (fun e =>
           match e with
           | (file, n) =>
               match n with
               | Dir _ => quiz_files (join dir file) n
               | File =>
                   if is_quiz_file_name file then [join dir file] else []
               | Dangling | Locked => []
               end
           end)
        files
  end.

(** [file_at dir d path name]: the tree [d] at [dir] holds, at any depth, a
    file (not a directory) called [name] whose joined path is [path]. *)
Inductive file_at : jsstring -> node -> jsstring -> jsstring -> Prop :=
| file_here dir files file :
    In (file, File) files ->
    file_at dir (Dir files) (join dir file) file
| file_below dir files sub n path name :
    In (sub, n) files ->
    file_at (join dir sub) n path name ->
    file_at dir (Dir files) path name.
End FindQuizFiles.

(** Induction over a directory tree. *)
Fixpoint node_induction (P : node -> Prop) (HFile : P File)
    (HDir : forall files, Forall (fun e => P (snd e)) files -> P (Dir files))
    (HDangling : P Dangling) (HLocked : P Locked)
    (n : node) : P n :=
  match n with
  | File => HFile
  | Dangling => HDangling
  | Locked => HLocked
  | Dir files =>
      HDir files
        ((fix all (l : list (jsstring * node))
            : Forall (fun e => P (snd e)) l :=
            match l with
            | [] => @List.Forall_nil _ _
            | e :: l' =>
                @List.Forall_cons _ _ e l'
                  (match e as e0 return P (snd e0) with
                   | (_, n') =>
                       node_induction P HFile HDir HDangling HLocked n'
                   end)
                  (all l')
            end) files)
  end.

(** Path joining with ["/"], for examples. *)
Definition slash_join (dir file : jsstring) : jsstring :=
  dir ++ lit "/" ++ file.

Definition sample_tree : node :=
  Dir [ (lit "intro.md", File);
        (lit "chapter-02-markdown",
         Dir [ (lit "01-basics.md", File);
               (lit "06-quiz-markdown.md", File);
               (lit "old-quiz.md", Dir [ (lit "quiz.txt", File) ]) ]);
        (lit "quiz-notes.md", File) ].

(** The same tree with a link without target in the chapter directory. *)
Definition broken_tree : node :=
  Dir [ (lit "intro.md", File);
        (lit "chapter-02-markdown",
         Dir [ (lit "06-quiz-markdown.md", File);
               (lit "latest-quiz.md", Dangling) ]);
        (lit "quiz-notes.md", File) ].

(** ** Runs of the quiz component *)

Module QuizInterfaceRuns.
Import QuizInterface.

(** The completion of a pending request. *)
Definition is_response (e : event) : bool :=
  match e with
  | SubmitSucceeded _ | SubmitFailed => true
  | _ => false
  end.

(** The index points at a question, when there is one. *)
Definition index_in_range (questions : list QuizQuestion) (s : State) : Prop :=
  questions <> [] -> (currentQuestionIndex s < length questions)%nat.

(** How many more submissions the state allows before a response. *)
Definition submissions_allowed (s : State) : nat :=
  if isSubmitting s then 0%nat else 1%nat.

End QuizInterfaceRuns.

(** ** Counting headings *)

(** The questions the scan holds, the current one included. *)
Definition held_questions (st : Scan.state) : nat :=
  length (Scan.questions st)
  + match Scan.currentQuestion st with Some _ => 1 | None => 0 end.

(** A string without line feed. *)
Definition single_line (s : jsstring) : Prop :=
  Forall (fun c => is_newline c = false) s.

(** ** Option texts *)

(** What is left of a string after its longest prefix in a class. *)
Fixpoint skip_while (p : N -> bool) (s : jsstring) : jsstring :=
  match s with
  | c :: s' => if p c then skip_while p s' else s
  | [] => []
  end.

(** Every option of the question has a non-empty, trimmed text. *)
Definition options_have_text (q : QuizQuestion) : Prop :=
  Forall (fun o => text o <> [] /\ is_trimmed (text o)) (options q).

Definition scan_options_have_text (st : Scan.state) : Prop :=
  Forall options_have_text (Scan.questions st) /\
  (forall q, Scan.currentQuestion st = Some q -> options_have_text q).

(** ** The chapter-completion button

    [CompleteChapterButton] asks the server whether the chapter is completed
    when it mounts and whenever its [chapterId] prop changes, and posts a
    completion when its button is clicked.  As for the quiz component, an
    event is a click the rendered view offers, a change of the prop, or the
    completion of a request; the requests sent are the output. *)

Module CompleteChapterButton.

Record State := mkState {
  chapterId : jsstring;
  isCompleted : bool;
  isLoading : bool;
  isChecking : bool
}.

Inductive request : Type :=
| GetProgress (chapter_id : jsstring)
| PostComplete (chapter_id : jsstring).

Inductive event : Type :=
| ChapterChanged (newChapterId : jsstring)
| CheckResolved (ok : bool) (completed : bool)
| CheckThrew
| ClickComplete
| CompleteResolved (ok : bool)
| CompleteThrew.

(** The state at mount; the effect then sends [GetProgress chapterId]. *)
Definition init (chapterId : jsstring) : State :=
  {| chapterId := chapterId; isCompleted := false; isLoading := false;
     isChecking := true |}.

Definition setIsCompleted (b : bool) (s : State) : State :=
  {| chapterId := chapterId s; isCompleted := b; isLoading := isLoading s;
     isChecking := isChecking s |}.

Definition setIsLoading (b : bool) (s : State) : State :=
  {| chapterId := chapterId s; isCompleted := isCompleted s; isLoading := b;
     isChecking := isChecking s |}.

Definition setIsChecking (b : bool) (s : State) : State :=
  {| chapterId := chapterId s; isCompleted := isCompleted s;
     isLoading := isLoading s; isChecking := b |}.

Definition setChapterId (c : jsstring) (s : State) : State :=
  {| chapterId := c; isCompleted := isCompleted s; isLoading := isLoading s;
     isChecking := isChecking s |}.

(** Whether the view shows the button and the button is enabled. *)
Definition button_enabled (s : State) : bool :=
  negb (isChecking s) && negb (isCompleted s) && negb (isLoading s).

Definition step (s : State) (e : event) : option (State * option request) :=
  match e with
  | ChapterChanged newChapterId =>
      if str_eqb newChapterId (chapterId s) then Some (s, None)
      else Some (setChapterId newChapterId s, Some (GetProgress newChapterId))
  | CheckResolved ok completed =>
      Some (setIsChecking false
              (if ok then setIsCompleted completed s else s), None)
  | CheckThrew => Some (setIsChecking false s, None)
  | ClickComplete =>
      if button_enabled s
      then Some (setIsLoading true s, Some (PostComplete (chapterId s)))
      else None
  | CompleteResolved ok =>
      Some (setIsLoading false (if ok then setIsCompleted true s else s), None)
  | CompleteThrew => Some (setIsLoading false s, None)
  end.

Fixpoint run (events : list event) (s : State)
  : option (State * list request) :=
  match events with
  | [] => Some (s, [])
  | e :: events' =>
      match step s e with
      | Some (s', sent) =>
          match run events' s' with
          | Some (s'', sents) => Some (s'', option_list sent ++ sents)
          | None => None
          end
      | None => None
      end
  end.

Definition is_post (r : request) : bool :=
  match r with PostComplete _ => true | GetProgress _ => false end.

Definition is_complete_response (e : event) : bool :=
  match e with CompleteResolved _ | CompleteThrew => true | _ => false end.

(** A check that finds the chapter not completed. *)
Definition is_not_completed_check (e : event) : bool :=
  match e with CheckResolved true false => true | _ => false end.

Definition posts_allowed (s : State) : nat :=
  if isLoading s then 0%nat else 1%nat.

End CompleteChapterButton.

(** ** Chapter navigation of the reader page

    The Previous and Next buttons of [BookReaderPage] look the active id up
    in [allChapters] with [indexOf], which gives [-1] for an id that is not
    listed. *)

Module BookReaderPage.

Fixpoint indexOf (l : list jsstring) (x : jsstring) : Z :=
  match l with
  | [] => (-1)%Z
  | y :: l' =>
      if str_eqb y x then 0%Z
      else let i := indexOf l' x in
           if (i <? 0)%Z then (-1)%Z else (i + 1)%Z
  end.

(** [l[i]] for an integer index; [None] for [undefined]. *)
Definition at_index (l : list jsstring) (i : Z) : option jsstring :=
  if (i <? 0)%Z then None else l !! Z.to_nat i.

Section Navigation.
Variable allChapters : list jsstring.

Definition previous_disabled (activeId : jsstring) : bool :=
  (indexOf allChapters activeId =? 0)%Z.

Definition next_disabled (activeId : jsstring) : bool :=
  (indexOf allChapters activeId =? Z.of_nat (length allChapters) - 1)%Z.

(** The click handlers: the new active id; [None] is [setActiveId(undefined)]. *)
Definition previous_handler (activeId : jsstring) : option jsstring :=
  let currentIndex := indexOf allChapters activeId in
  if (0 <? currentIndex)%Z then at_index allChapters (currentIndex - 1)
  else Some activeId.

Definition next_handler (activeId : jsstring) : option jsstring :=
  let currentIndex := indexOf allChapters activeId in
  if (currentIndex <? Z.of_nat (length allChapters) - 1)%Z
  then at_index allChapters (currentIndex + 1)
  else Some activeId.
End Navigation.

End BookReaderPage.

Module QuizInterfaceAnswers.
Import QuizInterface.

(** The answer recorded under [questionId] is the key of an option of a
    question with that identifier. *)
Definition is_option_of (questions : list QuizQuestion)
    (questionId answerKey : jsstring) : Prop :=
  exists q o, In q questions /\ id q = questionId /\
              In o (options q) /\ key o = answerKey.

Definition answers_are_options (questions : list QuizQuestion) (s : State)
  : Prop :=
  map_Forall (is_option_of questions) (answers s).

End QuizInterfaceAnswers.
(** * Properties *)

(** ** Worked examples *)

(** The example of the function's comment. *)
Example extractChapterId_example :
  extractChapterId
    (lit "part-2-markdown-prompt-context/chapter-02-markdown/06-quiz-markdown.md")
  = lit "chapter-02-markdown-quiz".
Proof. vm_compute. reflexivity. Qed.

Example extractChapterId_backslashes :
  extractChapterId (lit "docs\\extras\\final-quiz.md") = lit "final-quiz".
Proof. vm_compute. reflexivity. Qed.

(** One question with two options and an inline answer. *)
Example parse_sample_doc :
  parseQuizFile sample_path (one_file sample_path sample_doc)
  = (Some sample_quiz, one_file sample_path sample_doc).
Proof. vm_compute. reflexivity. Qed.

(** Decorations are removed from the title, one code unit at a time. *)
Example title_decorations :
  extract_title []
    [lit "intro"; lit "# " ++ [0xD83C; 0xDFAF] ++ lit " Chapter Quiz " ++ [0x2728];
     lit "# Second"]
  = lit "Chapter Quiz".
Proof. vm_compute. reflexivity. Qed.

(** Bold options, and answers given only by a trailing key. *)
Example parse_answer_key :
  parsed_questions
    [lit "### Question 1: Lists"; lit "**What is a list?**";
     lit "**A)** a sequence"; lit "**B)** a number";
     lit "### Question 2: Maps"; lit "**What is a map?**";
     lit "  C) keys and values  "; lit "E) ignored";
     lit "## Answer Key";
     lit "1. **A** - Lists are sequences."; lit "02. **C** - Maps pair keys."]
  = [ {| id := lit "q1"; question := lit "What is a list?";
         options := [mkOption (lit "A") (lit "a sequence");
                     mkOption (lit "B") (lit "a number")];
         correct_answer := lit "A";
         explanation := lit "Lists are sequences." |};
      {| id := lit "q2"; question := lit "What is a map?";
         options := [mkOption (lit "C") (lit "keys and values")];
         correct_answer := lit "C";
         explanation := lit "Maps pair keys." |} ].
Proof. vm_compute. reflexivity. Qed.

(** A heading whose next line is blank takes its text from the heading. *)
Example heading_title_fallback :
  question <$> scanned_questions
    (scan [lit "### Question 7: What: now?"; lit "   "] Scan.init)
  = [lit "What: now?"].
Proof. vm_compute. reflexivity. Qed.

(** An unreadable file is reported and gives [null]. *)
Example parse_missing_file :
  parseQuizFile (lit "missing.md") (one_file sample_path sample_doc)
  = (None,
     console_log (Console.ErrorParsing (lit "missing.md"))
       (one_file sample_path sample_doc)).
Proof. vm_compute. reflexivity. Qed.

(** ** Shape of a successful parse *)

Lemma length_match_answers answers qs :
  length (match_answers answers qs) = length qs.
Proof. unfold match_answers. apply length_imap. Qed.

Lemma parseQuizFile_unreadable filePath w :
  readFileSync w filePath = None ->
  parseQuizFile filePath w
  = (None, console_log (Console.ErrorParsing filePath) w).
Proof. intros H. unfold parseQuizFile. now rewrite H. Qed.

Lemma parseQuizFile_empty filePath w content :
  readFileSync w filePath = Some content ->
  parsed_questions (lines_of content) = [] ->
  parseQuizFile filePath w
  = (None, console_log (Console.NoQuestionsFound filePath) w).
Proof. intros H E. unfold parseQuizFile. now rewrite H, E. Qed.

Lemma parseQuizFile_Some filePath w quiz w' :
  parseQuizFile filePath w = (Some quiz, w') ->
  exists content,
    readFileSync w filePath = Some content /\
    parsed_questions (lines_of content) <> [] /\
    quiz = {| chapter_id := extractChapterId filePath;
              title := or_else (extract_title [] (lines_of content)) (lit "Quiz");
              description :=
                or_else (extract_description (lines_of content))
                  (lit "Test your knowledge!");
              passing_percentage := 70;
              questions := parsed_questions (lines_of content) |} /\
    w' = (let invalidQuestions :=
            List.filter is_invalid (parsed_questions (lines_of content)) in
          if Nat.ltb 0 (length invalidQuestions) then
            console_log
              (Console.QuestionsMissingAnswers (length invalidQuestions)
                 filePath) w
          else w).
Proof.
  unfold parseQuizFile. destruct (readFileSync w filePath) as [content|]; [|discriminate].
  destruct (parsed_questions (lines_of content)) as [|q qs] eqn:E; [discriminate|].
  cbn [length Nat.eqb]. intros [= <- <-]. exists content.
  rewrite E. repeat split; congruence.
Qed.

Lemma parseQuizFile_reads_only filePath w1 w2 :
  fs w1 !! filePath = fs w2 !! filePath ->
  fst (parseQuizFile filePath w1) = fst (parseQuizFile filePath w2).
Proof.
  intros H. unfold parseQuizFile, readFileSync. rewrite H.
  destruct (fs w2 !! filePath) as [content|]; [|reflexivity].
  destruct (Nat.eqb _ 0); reflexivity.
Qed.

Lemma parseQuizFile_keeps_files filePath w :
  fs (snd (parseQuizFile filePath w)) = fs w.
Proof.
  unfold parseQuizFile. destruct (readFileSync w filePath) as [content|]; [|reflexivity].
  destruct (Nat.eqb _ 0); [reflexivity|]. cbn [snd].
  destruct (Nat.ltb 0 _); reflexivity.
Qed.

(** ** No question, no quiz *)

(** C3. A readable document from which no question is extracted gives
    [null], and only such a document does: every quiz record returned holds
    the extracted questions, and they are not empty. *)
Theorem no_questions_no_quiz filePath w content :
  readFileSync w filePath = Some content ->
  (fst (parseQuizFile filePath w) = None
   <-> parsed_questions (lines_of content) = []) /\
  (forall quiz, fst (parseQuizFile filePath w) = Some quiz ->
     questions quiz = parsed_questions (lines_of content) /\
     questions quiz <> []).
Proof.
  intros Hread. split; [split|].
  - intros Hnone.
    destruct (parsed_questions (lines_of content)) as [|q qs] eqn:E; [reflexivity|].
    unfold parseQuizFile in Hnone. rewrite Hread, E in Hnone. discriminate.
  - intros E. now rewrite (parseQuizFile_empty _ _ _ Hread E).
  - intros quiz Hq.
    destruct (parseQuizFile filePath w) as [r w'] eqn:P. cbn in Hq. subst r.
    apply parseQuizFile_Some in P as (c & Hc & Hne & -> & _).
    rewrite Hread in Hc. injection Hc as <-. now split.
Qed.

Lemma no_questions_no_quiz_witness :
  (fst (parseQuizFile sample_path (one_file sample_path prose_doc)) = None
   <-> parsed_questions (lines_of prose_doc) = []) /\
  (forall quiz,
     fst (parseQuizFile sample_path (one_file sample_path prose_doc)) = Some quiz ->
     questions quiz = parsed_questions (lines_of prose_doc) /\
     questions quiz <> []).
Proof.
  apply (no_questions_no_quiz sample_path (one_file sample_path prose_doc) prose_doc).
  vm_compute. reflexivity.
Defined.

(** ** Title and description defaults *)

Lemma or_else_truthy a b : truthy b = true -> or_else a b <> [].
Proof.
  unfold or_else. destruct a; cbn; [|discriminate].
  destruct b; [discriminate | intros _; discriminate].
Qed.

Lemma extract_title_no_heading lines :
  Forall (fun line => startsWith line (lit "# ") = false) lines ->
  extract_title [] lines = [].
Proof.
  induction 1 as [|line rest Hl _ IH]; [reflexivity|].
  cbn [extract_title]. now rewrite Hl.
Qed.

(** C10. A returned quiz record has a non-empty title and a non-empty
    description; the title is ["Quiz"] when no line starts a top-level
    heading, and the description is ["Test your knowledge!"] when no
    description text was collected. *)
Theorem title_and_description_defaults filePath w quiz w' :
  parseQuizFile filePath w = (Some quiz, w') ->
  title quiz <> [] /\ description quiz <> [] /\
  exists content,
    readFileSync w filePath = Some content /\
    (Forall (fun line => startsWith line (lit "# ") = false) (lines_of content) ->
     title quiz = lit "Quiz") /\
    (extract_description (lines_of content) = [] ->
     description quiz = lit "Test your knowledge!").
Proof.
  intros P. apply parseQuizFile_Some in P as (content & Hread & _ & -> & _).
  cbn [title description]. split; [|split].
  - now apply or_else_truthy.
  - now apply or_else_truthy.
  - exists content. split; [assumption|]. split.
    + intros H. now rewrite (extract_title_no_heading _ H).
    + intros ->. reflexivity.
Qed.

Lemma title_and_description_defaults_witness :
  let quiz :=
    {| chapter_id := lit "bare";
       title := lit "Quiz";
       description := lit "Test your knowledge!";
       passing_percentage := 70;
       questions :=
         [{| id := lit "q1"; question := lit "Which one?";
             options := [{| key := lit "A"; text := lit "x" |}];
             correct_answer := lit "A"; explanation := [] |}] |} in
  title quiz <> [] /\ description quiz <> [] /\
  exists content,
    readFileSync
      (one_file (lit "bare.md")
         (unlines [lit "### Question 1: Topic"; lit "**Which one?**";
                   lit "**A)** x"; lit "**Answer: A)**"]))
      (lit "bare.md") = Some content /\
    (Forall (fun line => startsWith line (lit "# ") = false) (lines_of content) ->
     title quiz = lit "Quiz") /\
    (extract_description (lines_of content) = [] ->
     description quiz = lit "Test your knowledge!").
Proof.
  cbn zeta.
  eapply (title_and_description_defaults (lit "bare.md")
            (one_file (lit "bare.md")
               (unlines [lit "### Question 1: Topic"; lit "**Which one?**";
                         lit "**A)** x"; lit "**Answer: A)**"]))).
  vm_compute. reflexivity.
Defined.

(** ** The data-quality warning *)

(** C4, counterexample.  The document answers "C" for a question whose
    options are A and B; the question is returned, it is not counted as
    invalid, and nothing is written to the console. *)
Lemma stray_answer_not_flagged :
  let r := parseQuizFile (lit "quiz.md") (one_file (lit "quiz.md") stray_answer_doc) in
  (questions <$> fst r) = Some [stray_question] /\
  answer_among_options stray_question = false /\
  is_invalid stray_question = false /\
  console (snd r) = [] /\
  ~ stray_answers_flagged.
Proof.
  cbn zeta. repeat (split; [vm_compute; reflexivity|]).
  intros H.
  assert (P : parseQuizFile (lit "quiz.md") (one_file (lit "quiz.md") stray_answer_doc)
              = (Some {| chapter_id := lit "quiz"; title := lit "Quiz";
                         description := lit "Test your knowledge!";
                         passing_percentage := 70;
                         questions := [stray_question] |},
                 one_file (lit "quiz.md") stray_answer_doc))
    by (vm_compute; reflexivity).
  specialize (H _ _ _ _ stray_question P (or_introl eq_refl) eq_refl).
  vm_compute in H. discriminate.
Qed.

Lemma is_invalid_spec q :
  is_invalid q = true <-> correct_answer q = [] \/ options q = [].
Proof.
  unfold is_invalid. rewrite orb_true_iff. split.
  - intros [H|H].
    + left. destruct (correct_answer q); [reflexivity | discriminate].
    + right. destruct (options q); [reflexivity | discriminate].
  - intros [->| ->]; [left | right]; reflexivity.
Qed.

(** C4, as the parser does it.  The record returned holds the whole list
    the check ran over, so that no question is taken out of it, flagged or
    not.  The warning counts exactly the questions of that list whose
    correct answer is empty or that have no option, whatever the option keys
    are: a question with an answer and at least one option is never counted.
    The count is written to the console when it is positive, and nothing is
    written otherwise. *)
Theorem invalid_questions_counted_not_dropped filePath w quiz w' :
  parseQuizFile filePath w = (Some quiz, w') ->
  exists content,
    readFileSync w filePath = Some content /\
    let checked := parsed_questions (lines_of content) in
    let invalidQuestions := List.filter is_invalid checked in
    questions quiz = checked /\
    (forall q, In q invalidQuestions
               <-> In q (questions quiz) /\
                   (correct_answer q = [] \/ options q = [])) /\
    (forall q, In q (questions quiz) ->
               correct_answer q <> [] -> options q <> [] ->
               ~ In q invalidQuestions) /\
    console w' =
      console w ++
        (if Nat.ltb 0 (length invalidQuestions) then
           [Console.QuestionsMissingAnswers (length invalidQuestions) filePath]
         else []).
Proof.
  intros P. apply parseQuizFile_Some in P as (content & Hread & _ & -> & ->).
  exists content. split; [exact Hread|].
  cbn [questions]. cbn zeta. split; [reflexivity|]. split; [|split].
  - intros q. rewrite filter_In, is_invalid_spec. reflexivity.
  - intros q _ Ha Ho Hin. apply filter_In in Hin as [_ Hin].
    apply is_invalid_spec in Hin as [Hin|Hin]; contradiction.
  - destruct (Nat.ltb 0 _); cbn [console console_log]; [reflexivity|].
    now rewrite app_nil_r.
Qed.

Lemma invalid_questions_counted_not_dropped_witness :
  let w := one_file (lit "quiz.md") mixed_doc in
  let w' := console_log (Console.QuestionsMissingAnswers 2 (lit "quiz.md")) w in
  exists content,
    readFileSync w (lit "quiz.md") = Some content /\
    let checked := parsed_questions (lines_of content) in
    let invalidQuestions := List.filter is_invalid checked in
    questions mixed_quiz = checked /\
    (forall q, In q invalidQuestions
               <-> In q (questions mixed_quiz) /\
                   (correct_answer q = [] \/ options q = [])) /\
    (forall q, In q (questions mixed_quiz) ->
               correct_answer q <> [] -> options q <> [] ->
               ~ In q invalidQuestions) /\
    console w' =
      console w ++
        (if Nat.ltb 0 (length invalidQuestions) then
           [Console.QuestionsMissingAnswers (length invalidQuestions)
              (lit "quiz.md")]
         else []).
Proof.
  cbn zeta.
  apply (invalid_questions_counted_not_dropped (lit "quiz.md")
           (one_file (lit "quiz.md") mixed_doc) mixed_quiz).
  vm_compute. reflexivity.
Defined.

(** ** Inline annotations and the trailing answer key *)

(** C1, counterexample.  Question 1 carries the inline answer B with an
    inline explanation, and the answer key lists A for entry 1: the parsed
    question ends with the key's answer and explanation. *)
Lemma answer_key_overwrites_inline :
  let lines := lines_of both_forms_doc in
  (correct_answer <$> scanned_questions (scan lines Scan.init) !! 0%nat)
    = Some (lit "B") /\
  (explanation <$> scanned_questions (scan lines Scan.init) !! 0%nat)
    = Some (lit "inline") /\
  Scan.answers (scan lines Scan.init) !! 1
    = Some (Answer.mk (lit "A") (lit "legacy")) /\
  (correct_answer <$> parsed_questions lines !! 0%nat) = Some (lit "A") /\
  (explanation <$> parsed_questions lines !! 0%nat) = Some (lit "legacy") /\
  ~ inline_takes_precedence.
Proof.
  cbn zeta. repeat (split; [vm_compute; reflexivity|]).
  intros H.
  destruct (scanned_questions (scan (lines_of both_forms_doc) Scan.init) !! 0%nat)
    as [q|] eqn:Eq; [|vm_compute in Eq; discriminate].
  destruct (parsed_questions (lines_of both_forms_doc) !! 0%nat)
    as [q'|] eqn:Eq'; [|vm_compute in Eq'; discriminate].
  destruct (H _ _ _ _ Eq Eq') as [Hc _].
  vm_compute in Eq, Eq'. injection Eq as <-. injection Eq' as <-.
  cbn in Hc. specialize (Hc ltac:(discriminate)). discriminate.
Qed.

(** C1, as the parser does it.  Position by position, the parsed question
    is the scanned one with the answer key applied: where the key has an
    entry for the 1-based position, both the correct answer and the
    explanation are the entry's, whatever the inline annotations gave; where
    it has none, the question keeps its inline values. *)
Theorem answer_key_applied_by_position lines index q :
  scanned_questions (scan lines Scan.init) !! index = Some q ->
  let answers := Scan.answers (scan lines Scan.init) in
  parsed_questions lines !! index = Some (apply_key answers index q) /\
  (forall answerData, answers !! N.of_nat (index + 1) = Some answerData ->
     correct_answer (apply_key answers index q) = Answer.answer answerData /\
     explanation (apply_key answers index q) = Answer.explanation answerData) /\
  (answers !! N.of_nat (index + 1) = None -> apply_key answers index q = q).
Proof.
  intros Hq. cbn zeta. split; [|split].
  - unfold parsed_questions, match_answers. cbn zeta.
    rewrite list_lookup_imap, Hq. cbn. unfold apply_key.
    destruct (_ !! N.of_nat (index + 1)); reflexivity.
  - intros a Ha. unfold apply_key. rewrite Ha. now split.
  - intros Ha. unfold apply_key. now rewrite Ha.
Qed.

Lemma answer_key_applied_by_position_witness :
  let lines := lines_of both_forms_doc in
  let q := {| id := lit "q1"; question := lit "Which one?";
              options := [{| key := lit "A"; text := lit "x" |};
                          {| key := lit "B"; text := lit "y" |}];
              correct_answer := lit "B"; explanation := lit "inline" |} in
  let answers := Scan.answers (scan lines Scan.init) in
  parsed_questions lines !! 0%nat = Some (apply_key answers 0 q) /\
  (forall answerData, answers !! N.of_nat (0 + 1) = Some answerData ->
     correct_answer (apply_key answers 0 q) = Answer.answer answerData /\
     explanation (apply_key answers 0 q) = Answer.explanation answerData) /\
  (answers !! N.of_nat (0 + 1) = None -> apply_key answers 0 q = q).
Proof.
  cbn zeta. apply (answer_key_applied_by_position (lines_of both_forms_doc) 0).
  vm_compute. reflexivity.
Defined.

(** ** How one line changes the scan state *)

Lemma filtered_with_current f st st' :
  filtered st st' -> filtered (with_current f st) (with_current f st').
Proof.
  intros (Hc & Hn & Ha & Hq). unfold filtered, with_current. cbn.
  now rewrite Hc.
Qed.

Lemma filtered_on_option line st st' :
  filtered st st' -> filtered (on_option line st) (on_option line st').
Proof.
  intros H. unfold on_option.
  destruct (match_start re_option_bold line);
    [|destruct (match_start re_option_plain line)];
    auto using filtered_with_current.
Qed.

Lemma filtered_on_answer line st st' :
  filtered st st' -> filtered (on_answer line st) (on_answer line st').
Proof.
  intros H. unfold on_answer.
  destruct (match_any re_answer line); auto using filtered_with_current.
Qed.

Lemma filtered_on_explanation line st st' :
  filtered st st' ->
  filtered (on_explanation line st) (on_explanation line st').
Proof.
  intros H. unfold on_explanation.
  destruct (match_any re_explanation line); auto using filtered_with_current.
Qed.

Lemma filtered_on_key_line line st st' :
  filtered st st' -> filtered (on_key_line line st) (on_key_line line st').
Proof.
  intros H. unfold on_key_line.
  destruct (match_start re_key_line line); [|assumption].
  destruct (match_start re_key_entry line); [|assumption].
  destruct H as (Hc & Hn & Ha & Hq). unfold filtered. cbn.
  now rewrite Ha.
Qed.

Lemma filter_option_list cur qs :
  finalize cur (List.filter complete qs)
  = List.filter complete (qs ++ option_list cur).
Proof.
  rewrite List.filter_app. destruct cur as [q|]; cbn.
  - destruct (complete q); [reflexivity | now rewrite app_nil_r].
  - now rewrite app_nil_r.
Qed.

Lemma filtered_on_heading line next st st' :
  filtered st st' ->
  filtered (on_heading line next st) (on_heading_recording line next st').
Proof.
  intros (Hc & Hn & Ha & Hq). unfold on_heading, on_heading_recording.
  destruct (match_start re_heading line); [|repeat split; assumption].
  unfold filtered. cbn. rewrite Hc, Hn, Hq. repeat split; [assumption|].
  apply filter_option_list.
Qed.

Lemma filtered_step line next st st' :
  filtered st st' ->
  filtered (step line next st) (step_recording line next st').
Proof.
  intros H. unfold step, step_recording.
  apply filtered_on_key_line, filtered_on_explanation, filtered_on_answer,
    filtered_on_option, filtered_on_heading, H.
Qed.

Lemma filtered_scan lines : forall st st',
  filtered st st' ->
  filtered (scan lines st) (scan_recording lines st').
Proof.
  induction lines as [|raw rest IH]; intros st st' H; [exact H|].
  cbn [scan scan_recording]. apply IH. now apply filtered_step.
Qed.

Lemma complete_iff_text q : complete q = truthy (question q).
Proof. unfold complete, array_truthy. apply andb_true_r. Qed.

Lemma map_imap_preserved {A B} (g : A -> B) (f : nat -> A -> A) (l : list A) :
  (forall i x, g (f i x) = g x) -> map g (imap f l) = map g l.
Proof.
  revert f. induction l as [|x l IH]; intros f H; [reflexivity|].
  cbn [imap map]. f_equal; [apply H|].
  apply IH. intros i y. apply H.
Qed.

Lemma question_match_answers answers qs :
  map question (match_answers answers qs) = map question qs.
Proof.
  apply map_imap_preserved. intros i q.
  destruct (answers !! N.of_nat (i + 1)); reflexivity.
Qed.

Lemma id_match_answers answers qs :
  map id (match_answers answers qs) = map id qs.
Proof.
  apply map_imap_preserved. intros i q.
  destruct (answers !! N.of_nat (i + 1)); reflexivity.
Qed.

(** ** Which questions are finalized *)

(** C2, counterexample.  A heading followed by its question text and no
    option line: the question is in the output list with no option, and the
    quiz is returned. *)
Lemma question_without_options_finalized :
  let q := {| id := lit "q1"; question := lit "Which one?";
              options := []; correct_answer := []; explanation := [] |} in
  scanned_questions (scan (lines_of no_options_doc) Scan.init) = [q] /\
  (questions <$>
     fst (parseQuizFile (lit "quiz.md") (one_file (lit "quiz.md") no_options_doc)))
  = Some [q] /\
  ~ finalized_needs_option.
Proof.
  cbn zeta. repeat (split; [vm_compute; reflexivity|]).
  intros H.
  destruct (H (lines_of no_options_doc)
              {| id := lit "q1"; question := lit "Which one?";
                 options := []; correct_answer := []; explanation := [] |})
    as [_ Hopt].
  - vm_compute. left. reflexivity.
  - apply Hopt. reflexivity.
Qed.

(** C2, as the parser does it.  Of the questions the scan held, at a
    heading or at the end of the document, the output list keeps exactly
    those with non-empty question text, in order and whether or not they
    have options; so every parsed question has non-empty text. *)
Theorem finalized_iff_has_text lines :
  scanned_questions (scan lines Scan.init)
  = List.filter (fun q => truthy (question q)) (candidates lines) /\
  Forall (fun q => question q <> []) (parsed_questions lines).
Proof.
  assert (E : scanned_questions (scan lines Scan.init)
              = List.filter (fun q => truthy (question q)) (candidates lines)).
  { unfold scanned_questions, candidates. cbn zeta.
    destruct (filtered_scan lines Scan.init Scan.init) as (Hc & _ & _ & Hq).
    { repeat split. }
    rewrite Hc, Hq, filter_option_list.
    apply List.filter_ext. intros q. apply complete_iff_text. }
  split; [exact E|].
  assert (F : Forall (fun t : jsstring => t <> [])
                (map question (parsed_questions lines))).
  { unfold parsed_questions. cbn zeta. rewrite question_match_answers, E.
    apply List.Forall_forall. intros t Ht.
    apply List.in_map_iff in Ht as (q & <- & Hin).
    apply List.filter_In in Hin as [_ Hin].
    destruct (question q); [discriminate | discriminate]. }
  apply List.Forall_forall. intros q Hq.
  rewrite List.Forall_forall in F. apply F. now apply List.in_map.
Qed.

(** ** Question identifiers *)

Lemma lit_inj s1 s2 : lit s1 = lit s2 -> s1 = s2.
Proof.
  unfold lit. intros H.
  rewrite <- (string_of_list_ascii_of_string s1),
          <- (string_of_list_ascii_of_string s2).
  f_equal. revert H.
  generalize (list_ascii_of_string s1) (list_ascii_of_string s2).
  induction l as [|a l IH]; intros [|b l']; cbn; try discriminate; [reflexivity|].
  intros [= Hab Hl]. f_equal; [|now apply IH].
  rewrite <- (ascii_N_embedding a), <- (ascii_N_embedding b). now rewrite Hab.
Qed.

Lemma of_number_inj n m : of_number n = of_number m -> n = m.
Proof.
  unfold of_number. intros H. apply lit_inj in H.
  apply DecimalN.Unsigned.to_uint_inj.
  assert (E : NilEmpty.uint_of_string (NilEmpty.string_of_uint (N.to_uint n))
              = NilEmpty.uint_of_string (NilEmpty.string_of_uint (N.to_uint m)))
    by now rewrite H.
  rewrite !NilEmpty.usu in E. congruence.
Qed.

Lemma question_id_inj n m : question_id n = question_id m -> n = m.
Proof.
  unfold question_id. intros H. apply app_inv_head in H.
  now apply of_number_inj.
Qed.

Lemma sorted_ids_NoDup ns :
  StronglySorted N.lt ns -> NoDup (map question_id ns).
Proof.
  induction 1 as [|a l Hs IH Ha]; cbn; constructor; [|assumption].
  rewrite list_elem_of_In, List.in_map_iff. intros (m & Hm & Hin).
  apply question_id_inj in Hm. subst m.
  rewrite List.Forall_forall in Ha. specialize (Ha _ Hin). lia.
Qed.

(** What the lines after the heading test do to the recorded questions:
    nothing, as far as identifiers, texts and the counter go. *)
Lemma recorded_with_current f st :
  (forall q, id_and_text (f q) = id_and_text q) ->
  map id_and_text (recorded (with_current f st)) = map id_and_text (recorded st).
Proof.
  intros Hf. unfold recorded, with_current. cbn.
  rewrite !map_app. f_equal.
  destruct (Scan.currentQuestion st) as [q|]; cbn; [|reflexivity].
  now rewrite Hf.
Qed.

Lemma recorded_after_heading line st :
  let st' := on_key_line line
               (on_explanation line (on_answer line (on_option line st))) in
  map id_and_text (recorded st') = map id_and_text (recorded st) /\
  Scan.questionNumber st' = Scan.questionNumber st.
Proof.
  cbn zeta.
  assert (H1 : map id_and_text (recorded (on_option line st))
               = map id_and_text (recorded st) /\
               Scan.questionNumber (on_option line st) = Scan.questionNumber st).
  { unfold on_option.
    destruct (match_start re_option_bold line);
      [|destruct (match_start re_option_plain line)];
      (split; [|reflexivity]); try reflexivity;
      now apply recorded_with_current. }
  assert (H2 : forall s,
            map id_and_text (recorded (on_answer line s))
            = map id_and_text (recorded s) /\
            Scan.questionNumber (on_answer line s) = Scan.questionNumber s).
  { intros s. unfold on_answer.
    destruct (match_any re_answer line); (split; [|reflexivity]);
      try reflexivity; now apply recorded_with_current. }
  assert (H3 : forall s,
            map id_and_text (recorded (on_explanation line s))
            = map id_and_text (recorded s) /\
            Scan.questionNumber (on_explanation line s) = Scan.questionNumber s).
  { intros s. unfold on_explanation.
    destruct (match_any re_explanation line); (split; [|reflexivity]);
      try reflexivity; now apply recorded_with_current. }
  assert (H4 : forall s,
            map id_and_text (recorded (on_key_line line s))
            = map id_and_text (recorded s) /\
            Scan.questionNumber (on_key_line line s) = Scan.questionNumber s).
  { intros s. unfold on_key_line.
    destruct (match_start re_key_line line); [|now split].
    destruct (match_start re_key_entry line); now split. }
  destruct H1 as [A1 B1].
  destruct (H2 (on_option line st)) as [A2 B2].
  destruct (H3 (on_answer line (on_option line st))) as [A3 B3].
  destruct (H4 (on_explanation line (on_answer line (on_option line st))))
    as [A4 B4].
  split; congruence.
Qed.

(** The recording scan numbers the questions heading by heading. *)
Lemma recorded_scan lines : forall st,
  map id_and_text (recorded (scan_recording lines st))
  = map id_and_text (recorded st)
    ++ numbered_headings (Scan.questionNumber st) lines /\
  Scan.questionNumber (scan_recording lines st)
  = Scan.questionNumber st + N.of_nat (heading_count lines).
Proof.
  induction lines as [|raw rest IH]; intros st.
  - cbn. rewrite app_nil_r. split; [reflexivity | lia].
  - cbn [scan_recording numbered_headings].
    destruct (IH (step_recording (trim raw) (head rest) st)) as [Hq Hn].
    destruct (recorded_after_heading (trim raw)
                (on_heading_recording (trim raw) (head rest) st)) as [Aq An].
    fold (step_recording (trim raw) (head rest) st) in Aq, An.
    rewrite Hq, Hn, Aq, An. clear Hq Hn Aq An IH.
    unfold heading_count. cbn [List.filter].
    unfold on_heading_recording, is_question_heading.
    destruct (match_start re_heading (trim raw)); cbn [length].
    + cbn [Scan.questionNumber]. split; [|lia].
      unfold recorded at 1. cbn [Scan.questions Scan.currentQuestion option_list].
      fold (recorded st). rewrite map_app, <- app_assoc. reflexivity.
    + split; reflexivity.
Qed.

Lemma candidates_numbered lines :
  map id_and_text (candidates lines) = numbered_headings 0 lines.
Proof.
  unfold candidates. cbn zeta. fold (recorded (scan_recording lines Scan.init)).
  now destruct (recorded_scan lines Scan.init) as [-> _].
Qed.

Lemma heading_numbers_S n count :
  heading_numbers n (S count) = (n + 1) :: heading_numbers (n + 1) count.
Proof.
  unfold heading_numbers. cbn [seq map]. f_equal.
  rewrite <- seq_shift, List.map_map. apply List.map_ext. intros k. lia.
Qed.

Lemma numbered_headings_ids lines : forall n,
  map fst (numbered_headings n lines)
  = map question_id (heading_numbers n (heading_count lines)).
Proof.
  induction lines as [|raw rest IH]; intros n; [reflexivity|].
  cbn [numbered_headings]. unfold heading_count. cbn [List.filter].
  destruct (is_question_heading raw); [|apply IH].
  cbn [length map fst]. fold (heading_count rest).
  now rewrite heading_numbers_S, IH.
Qed.

(** Whatever headings are kept, their identifiers are those of a strictly
    increasing run of heading numbers. *)
Lemma numbered_headings_kept (keep : jsstring * jsstring -> bool) lines :
  forall n, exists ns,
    map fst (List.filter keep (numbered_headings n lines)) = map question_id ns /\
    StronglySorted N.lt ns /\
    Forall (fun m => n < m <= n + N.of_nat (heading_count lines)) ns.
Proof.
  induction lines as [|raw rest IH]; intros n.
  - exists []. cbn. repeat split; constructor.
  - cbn [numbered_headings]. unfold heading_count. cbn [List.filter].
    destruct (is_question_heading raw).
    + destruct (IH (n + 1)) as (ns & Hids & Hs & Hb).
      fold (heading_count rest) in Hb. cbn [length List.filter].
      assert (Hb' : Forall (fun m => n < m <= n + N.of_nat (S (heading_count rest)))
                      ns).
      { eapply List.Forall_impl; [|exact Hb]. cbn beta. intros m Hm. lia. }
      destruct (keep _).
      * exists ((n + 1) :: ns). cbn [map fst]. rewrite Hids.
        split; [reflexivity|]. split.
        -- constructor; [exact Hs|].
           eapply List.Forall_impl; [|exact Hb]. cbn beta. intros m Hm. lia.
        -- constructor; [lia | exact Hb'].
      * exists ns. repeat split; assumption.
    + apply IH.
Qed.

Lemma map_filter_id_and_text (qs : list QuizQuestion) :
  map id_and_text (List.filter (fun q => truthy (question q)) qs)
  = List.filter (fun p => truthy (snd p)) (map id_and_text qs).
Proof.
  induction qs as [|q qs IH]; [reflexivity|].
  cbn [List.filter map].
  change (snd (id_and_text q)) with (question q).
  destruct (truthy (question q)); cbn [map]; now rewrite IH.
Qed.

Lemma scanned_questions_candidates lines :
  scanned_questions (scan lines Scan.init)
  = List.filter (fun q => truthy (question q)) (candidates lines).
Proof.
  unfold scanned_questions, candidates. cbn zeta.
  destruct (filtered_scan lines Scan.init Scan.init) as (Hc & _ & _ & Hq).
  { repeat split. }
  rewrite Hc, Hq, filter_option_list.
  apply List.filter_ext. intros q. apply complete_iff_text.
Qed.

Lemma id_and_text_match_answers answers qs :
  map id_and_text (match_answers answers qs) = map id_and_text qs.
Proof.
  apply map_imap_preserved. intros i q.
  destruct (answers !! N.of_nat (i + 1)); reflexivity.
Qed.

(** C9. The counter goes up by one at every question heading, so that the
    question opened by the k-th heading of the document is given the
    identifier ["q" ++ k]; the returned questions are, in the order of their
    headings, those whose text is not empty, each with the identifier its
    heading gave it.  The identifiers of a returned quiz are therefore
    ["q" ++ n] for a strictly increasing run of heading numbers [n] between
    1 and the number of headings, with gaps where a heading's question was
    dropped, and no identifier occurs twice. *)
Theorem question_ids_distinct_increasing filePath w quiz w' :
  parseQuizFile filePath w = (Some quiz, w') ->
  exists content ns,
    readFileSync w filePath = Some content /\
    let lines := lines_of content in
    Scan.questionNumber (scan lines Scan.init)
    = N.of_nat (heading_count lines) /\
    map fst (numbered_headings 0 lines)
    = map question_id (heading_numbers 0 (heading_count lines)) /\
    map id_and_text (questions quiz)
    = List.filter (fun p => truthy (snd p)) (numbered_headings 0 lines) /\
    map id (questions quiz) = map question_id ns /\
    StronglySorted N.lt ns /\
    Forall (fun n => 1 <= n <= N.of_nat (heading_count lines)) ns /\
    NoDup (map id (questions quiz)).
Proof.
  intros P. apply parseQuizFile_Some in P as (content & Hread & _ & -> & _).
  cbn [questions].
  assert (E : map id_and_text (parsed_questions (lines_of content))
              = List.filter (fun p => truthy (snd p))
                  (numbered_headings 0 (lines_of content))).
  { unfold parsed_questions. cbn zeta.
    now rewrite id_and_text_match_answers, scanned_questions_candidates,
      map_filter_id_and_text, candidates_numbered. }
  destruct (numbered_headings_kept (fun p => truthy (snd p))
              (lines_of content) 0) as (ns & Hids & Hs & Hb).
  assert (I : map id (parsed_questions (lines_of content)) = map question_id ns).
  { rewrite <- Hids, <- E, List.map_map. reflexivity. }
  exists content, ns. split; [exact Hread|]. cbn zeta.
  split; [|split; [|split; [|split; [|split; [|split]]]]].
  - destruct (filtered_scan (lines_of content) Scan.init Scan.init)
      as (_ & Hn & _ & _).
    { repeat split. }
    rewrite Hn.
    now destruct (recorded_scan (lines_of content) Scan.init) as [_ ->].
  - apply numbered_headings_ids.
  - exact E.
  - exact I.
  - exact Hs.
  - eapply List.Forall_impl; [|exact Hb]. cbn beta. intros n Hn. lia.
  - rewrite I. now apply sorted_ids_NoDup.
Qed.

Lemma question_ids_distinct_increasing_witness :
  exists content ns,
    readFileSync (one_file (lit "quiz.md") gapped_doc) (lit "quiz.md")
    = Some content /\
    let lines := lines_of content in
    Scan.questionNumber (scan lines Scan.init)
    = N.of_nat (heading_count lines) /\
    map fst (numbered_headings 0 lines)
    = map question_id (heading_numbers 0 (heading_count lines)) /\
    map id_and_text (questions gapped_quiz)
    = List.filter (fun p => truthy (snd p)) (numbered_headings 0 lines) /\
    map id (questions gapped_quiz) = map question_id ns /\
    StronglySorted N.lt ns /\
    Forall (fun n => 1 <= n <= N.of_nat (heading_count lines)) ns /\
    NoDup (map id (questions gapped_quiz)).
Proof.
  apply (question_ids_distinct_increasing (lit "quiz.md")
           (one_file (lit "quiz.md") gapped_doc) gapped_quiz
           (one_file (lit "quiz.md") gapped_doc)).
  vm_compute. reflexivity.
Defined.

(** ** Trimming *)

Lemma trimStart_starts_tight s : starts_tight (trimStart s) = true.
Proof.
  induction s as [|c s IH]; [reflexivity|]. cbn [trimStart].
  destruct (is_space c) eqn:E; [assumption|]. cbn. now rewrite E.
Qed.

Lemma trimStart_tight s : starts_tight s = true -> trimStart s = s.
Proof.
  destruct s as [|c s]; [reflexivity|]. cbn.
  now destruct (is_space c).
Qed.

Lemma trimEnd_starts_tight s :
  starts_tight s = true -> starts_tight (trimEnd s) = true.
Proof.
  destruct s as [|c s]; [reflexivity|]. cbn [starts_tight trimEnd]. intros H.
  destruct (trimEnd s); [|exact H].
  destruct (is_space c) eqn:E; [reflexivity|]. cbn. now rewrite E.
Qed.

Lemma trimEnd_idem s : trimEnd (trimEnd s) = trimEnd s.
Proof.
  induction s as [|c s IH]; [reflexivity|]. cbn [trimEnd].
  destruct (trimEnd s) as [|d t] eqn:E.
  - destruct (is_space c) eqn:Ec; [reflexivity|]. cbn. now rewrite Ec.
  - cbn [trimEnd]. cbn [trimEnd] in IH. now rewrite IH.
Qed.

Lemma trimEnd_app a b :
  trimEnd (a ++ b)
  = match trimEnd b with [] => trimEnd a | t => a ++ t end.
Proof.
  induction a as [|c a IH]; cbn [app trimEnd].
  - now destruct (trimEnd b).
  - rewrite IH. destruct (trimEnd b) as [|d t]; [reflexivity|].
    now destruct a.
Qed.

Lemma trim_starts_tight s : starts_tight (trim s) = true.
Proof. apply trimEnd_starts_tight, trimStart_starts_tight. Qed.

Lemma trimEnd_trim s : trimEnd (trim s) = trim s.
Proof. apply trimEnd_idem. Qed.

(** The accumulated pieces, each followed by a space, trim to the pieces
    joined by single spaces. *)
Lemma trimEnd_pieces (ps : list jsstring) :
  Forall (fun p => p <> [] /\ trimEnd p = p) ps ->
  trimEnd (concat (map (fun p => p ++ lit " ") ps)) = join (lit " ") ps.
Proof.
  induction 1 as [|p ps [Hne Hp] Hps IH]; [reflexivity|].
  cbn [map concat]. rewrite <- app_assoc, trimEnd_app, trimEnd_app, IH.
  destruct ps as [|p' ps'].
  - cbn. exact Hp.
  - assert (Hj : join (lit " ") (p' :: ps') <> []).
    { inversion Hps as [|? ? [Hne' _] _]; subst.
      cbn [join]. destruct ps'; [assumption|].
      destruct p'; [contradiction | discriminate]. }
    cbn [join]. destruct (join (lit " ") (p' :: ps')) eqn:E; [contradiction|].
    cbn [join] in E. rewrite E. reflexivity.
Qed.

Lemma trim_pieces (ps : list jsstring) :
  Forall (fun p => p <> [] /\ trimEnd p = p /\ starts_tight p = true) ps ->
  trim (concat (map (fun p => p ++ lit " ") ps)) = join (lit " ") ps.
Proof.
  intros H. unfold trim. rewrite trimStart_tight.
  - apply trimEnd_pieces. eapply List.Forall_impl; [|exact H].
    cbn. intros p (? & ? & _). now split.
  - destruct H as [|p ps (Hne & _ & Ht) _]; [reflexivity|].
    cbn [map concat]. destruct p; [contradiction | exact Ht].
Qed.

(** ** The description *)

Lemma description_loop_inside lines : forall description,
  description_loop true description lines
  = description ++
      concat (map (fun p => p ++ lit " ")
                (map trim (List.filter plain_text (before_questions lines)))).
Proof.
  induction lines as [|line rest IH]; intros description.
  - cbn. now rewrite app_nil_r.
  - cbn [description_loop before_questions]. rewrite andb_false_r. cbn [andb].
    destruct (includes line questions_marker).
    + cbn. now rewrite app_nil_r.
    + cbn [List.filter]. fold (plain_text line).
      destruct (plain_text line).
      * rewrite IH. cbn [map concat]. now rewrite <- !app_assoc.
      * apply IH.
Qed.

Lemma description_loop_outside lines :
  description_loop false [] lines
  = concat (map (fun p => p ++ lit " ") (description_lines lines)).
Proof.
  unfold description_lines.
  induction lines as [|line rest IH]; [reflexivity|].
  cbn [description_loop after_title]. rewrite andb_true_r. cbn [andb].
  destruct (startsWith line (lit "# ")).
  - now rewrite description_loop_inside.
  - exact IH.
Qed.

Lemma description_lines_tight lines :
  Forall (fun p => p <> [] /\ trimEnd p = p /\ starts_tight p = true)
    (description_lines lines).
Proof.
  unfold description_lines. apply List.Forall_forall. intros p Hp.
  apply List.in_map_iff in Hp as (line & <- & Hin).
  apply List.filter_In in Hin as [_ Hplain].
  unfold plain_text in Hplain.
  apply andb_true_iff in Hplain as [Hplain _].
  apply andb_true_iff in Hplain as [Hplain _].
  apply andb_true_iff in Hplain as [Hplain _].
  split; [|split].
  - intros E. rewrite E in Hplain. discriminate.
  - apply trimEnd_trim.
  - apply trim_starts_tight.
Qed.

Lemma extract_description_text lines :
  extract_description lines = description_text lines.
Proof.
  unfold extract_description, description_text, substring0.
  rewrite description_loop_outside, trim_pieces; [reflexivity|].
  apply description_lines_tight.
Qed.




(** ** The chapter identifier *)

Lemma find_Some_holds {A} (pred : A -> bool) l x :
  find pred l = Some x -> pred x = true.
Proof.
  induction l as [|y l IH]; cbn; [discriminate|].
  destruct (pred y) eqn:E; [|exact IH]. now intros [= <-].
Qed.

(** With a segment that starts with ["chapter-"], the identifier is the
    first such segment followed by ["-quiz"]. *)
Lemma extractChapterId_chapter filePath chapterPart :
  find (fun p => startsWith p (lit "chapter-"))
    (split is_path_separator filePath) = Some chapterPart ->
  extractChapterId filePath = chapterPart ++ lit "-quiz".
Proof.
  intros H. unfold extractChapterId. rewrite H.
  apply find_Some_holds in H. destruct chapterPart; [discriminate | reflexivity].
Qed.

Lemma startsWith_md_app c stem :
  startsWith (c :: stem) (lit ".md") = false ->
  startsWith (c :: stem ++ lit ".md") (lit ".md") = false.
Proof.
  change (lit ".md") with [46; 109; 100].
  cbn [startsWith app]. destruct (code_eqb 46 c); [|reflexivity]. cbn [andb].
  destruct stem as [|x [|y stem]]; cbn [startsWith app].
  - reflexivity.
  - intros _. destruct (code_eqb 109 x); reflexivity.
  - now destruct stem.
Qed.

Lemma remove_first_md_extension stem :
  includes stem (lit ".md") = false ->
  remove_first (lit ".md") (stem ++ lit ".md") = stem.
Proof.
  induction stem as [|c stem IH]; [reflexivity|].
  cbn [includes]. intros H. apply orb_false_iff in H as [Hhere Hlater].
  cbn [app remove_first]. rewrite (startsWith_md_app _ _ Hhere).
  f_equal. now apply IH.
Qed.

(** Without such a segment, and for a base name whose only [".md"] is its
    extension, the identifier is the base name without the extension. *)
Lemma extractChapterId_md_extension filePath stem :
  find (fun p => startsWith p (lit "chapter-"))
    (split is_path_separator filePath) = None ->
  List.last (split is_path_separator filePath) [] = stem ++ lit ".md" ->
  includes stem (lit ".md") = false ->
  extractChapterId filePath = stem.
Proof.
  intros Hnone Hlast Hstem. unfold extractChapterId.
  rewrite Hnone, Hlast. now apply remove_first_md_extension.
Qed.

(** C6, at a file name that holds [".md"] before its extension.  The
    fallback removes the first [".md"] of the base name, not the
    extension. *)
Lemma extractChapterId_removes_first_md :
  extractChapterId (lit "docs/extras/README.md-quiz.md") = lit "README-quiz.md" /\
  without_md_extension (lit "README.md-quiz.md") = lit "README.md-quiz".
Proof. split; vm_compute; reflexivity. Qed.

(** ** Submitting a quiz *)

Module QuizInterfaceFacts.
Import QuizInterface.
Local Open Scope nat_scope.

Section Facts.
Variable questions : list QuizQuestion.

Lemma size_list_to_set_le (l : list jsstring) :
  size (list_to_set l : gset jsstring) <= length l.
Proof.
  induction l as [|x l IH]; cbn [length].
  - now rewrite list_to_set_nil, size_empty.
  - rewrite list_to_set_cons, size_union_alt, size_singleton.
    pose proof (subseteq_size (list_to_set l ∖ {[x]})
                  (list_to_set l : gset jsstring)) as H.
    specialize (H (subseteq_difference_l _ _ _ (reflexivity _))). lia.
Qed.

Lemma init_answers_for_questions : answers_for_questions questions init.
Proof.
  unfold answers_for_questions, init. cbn.
  rewrite dom_empty_L. apply empty_subseteq.
Qed.

Lemma step_answers_for_questions s e s' sent :
  answers_for_questions questions s ->
  step questions s e = Some (s', sent) ->
  answers_for_questions questions s'.
Proof.
  unfold answers_for_questions. intros Inv Hstep.
  destruct e; cbn in Hstep.
  - (* SelectOption *)
    destruct (results s); [discriminate|].
    destruct (questions !! currentQuestionIndex s) as [cq|] eqn:Ecq;
      [|discriminate].
    destruct (options cq !! i); [|discriminate].
    injection Hstep as <- _. cbn. rewrite dom_insert_L.
    apply union_least; [|exact Inv].
    apply singleton_subseteq_l.
    apply elem_of_list_to_set, list_elem_of_In, List.in_map.
    apply list_elem_of_In, list_elem_of_lookup. eauto.
  - (* ClickNext *)
    destruct (results s); [discriminate|].
    destruct (questions !! currentQuestionIndex s); [|discriminate].
    destruct (Nat.eqb _ _); [discriminate|].
    injection Hstep as <- _. unfold handleNext.
    destruct (Nat.ltb _ _); exact Inv.
  - (* ClickPrevious *)
    destruct (results s); [discriminate|].
    destruct (questions !! currentQuestionIndex s); [|discriminate].
    destruct (Nat.eqb _ _); [discriminate|].
    injection Hstep as <- _. unfold handlePrevious.
    destruct (Nat.ltb _ _); exact Inv.
  - (* ClickSubmit *)
    destruct (results s); [discriminate|].
    destruct (questions !! currentQuestionIndex s); [|discriminate].
    destruct (negb _ || _); [discriminate|].
    injection Hstep as <- _. exact Inv.
  - (* ClickRetake *)
    destruct (results s); [|discriminate].
    injection Hstep as <- _. cbn.
    rewrite dom_empty_L. apply empty_subseteq.
  - injection Hstep as <- _. exact Inv.
  - injection Hstep as <- _. exact Inv.
  - destruct (results s); [|destruct (newQuestions !! _); [|discriminate]];
      injection Hstep as <- _; exact Inv.
Qed.

(** A submission is sent only by an enabled submit button, and it holds
    the answers selected at that moment. *)
Lemma step_sent s e s' payload :
  step questions s e = Some (s', Some payload) ->
  e = ClickSubmit /\ allAnswered questions s = true /\
  isSubmitting s = false /\ payload = submitted_answers s.
Proof.
  intros Hstep. destruct e; cbn in Hstep;
    try (destruct (results s); try discriminate);
    try (destruct (questions !! currentQuestionIndex s) as [cq|];
         try discriminate);
    try (destruct (options cq !! i); discriminate);
    try (destruct (Nat.eqb _ _); discriminate);
    try (destruct (newQuestions !! _); discriminate);
    try discriminate.
  destruct (allAnswered questions s); [|discriminate].
  destruct (isSubmitting s); [discriminate|].
  cbn in Hstep. injection Hstep as _ <-. repeat split.
Qed.

(** Counting gives coverage: as many answers as questions, all of them
    for questions of the quiz, is an answer for every question. *)
Lemma all_answered_covers s :
  answers_for_questions questions s ->
  allAnswered questions s = true ->
  forall q, In q questions -> is_Some (answers s !! id q).
Proof.
  unfold answers_for_questions, allAnswered, answeredCount.
  intros Inv Hall q Hq. apply Nat.eqb_eq in Hall.
  apply elem_of_dom.
  assert (E : dom (answers s)
              = (list_to_set (map id questions) : gset jsstring)).
  { apply set_subseteq_size_eq; [exact Inv|].
    rewrite size_dom, Hall.
    pose proof (size_list_to_set_le (map id questions)) as H.
    now rewrite length_map in H. }
  rewrite E. apply elem_of_list_to_set, list_elem_of_In.
  now apply List.in_map.
Qed.

Lemma submitted_answers_cover s :
  answers_for_questions questions s ->
  allAnswered questions s = true ->
  length (submitted_answers s) = length questions /\
  forall q, In q questions ->
    exists a, In {| question_id := id q; selected_answer := a |}
                (submitted_answers s).
Proof.
  intros Inv Hall. split.
  - unfold submitted_answers. rewrite length_map, length_map_to_list.
    now apply Nat.eqb_eq in Hall.
  - intros q Hq.
    destruct (all_answered_covers s Inv Hall q Hq) as [a Ha].
    exists a. unfold submitted_answers.
    apply List.in_map_iff. exists (id q, a). split; [reflexivity|].
    now apply list_elem_of_In, elem_of_map_to_list.
Qed.

Lemma run_sent events : forall s0 s sents,
  forallb keeps_questions events = true ->
  answers_for_questions questions s0 ->
  run questions events s0 = Some (s, sents) ->
  answers_for_questions questions s /\
  Forall (fun payload =>
            length payload = length questions /\
            forall q, In q questions ->
              exists a, In {| question_id := id q; selected_answer := a |}
                          payload) sents.
Proof.
  induction events as [|e events IH]; intros s0 s sents Hkeep Inv Hrun.
  - cbn in Hrun. injection Hrun as <- <-. split; [exact Inv | constructor].
  - cbn [run] in Hrun.
    cbn [forallb] in Hkeep. apply andb_true_iff in Hkeep as [He Hkeep].
    destruct (step questions s0 e) as [[s1 sent]|] eqn:Hstep; [|discriminate].
    replace (questions_after questions e) with questions in Hrun
      by (destruct e; [reflexivity..|discriminate]).
    destruct (run questions events s1) as [[s2 rest]|] eqn:Hrest;
      [|discriminate].
    injection Hrun as <- <-.
    pose proof (step_answers_for_questions _ _ _ _ Inv Hstep) as Inv1.
    destruct (IH _ _ _ Hkeep Inv1 Hrest) as [Inv2 Hall]. split; [exact Inv2|].
    destruct sent as [payload|]; [|exact Hall].
    cbn. constructor; [|exact Hall].
    apply step_sent in Hstep as (_ & Hans & _ & ->).
    now apply submitted_answers_cover.
Qed.
End Facts.

(** C8. The submit button compares the number of selected answers with the
    number of questions, and a render with another [questions] prop keeps
    the selected answers.  The component is mounted with the two questions
    q1 and q2; the learner answers q2 only; the page then renders the
    mounted component with a quiz whose single question is q1.  One answer
    for one question: the button is enabled, and the submission sent holds
    an entry for q2 and none for q1, the only question of the quiz it is
    sent for. *)
Theorem submission_misses_question :
  let events := [ClickNext; SelectOption 0; ClickPrevious;
                 QuestionsChanged other_questions] in
  let s := {| currentQuestionIndex := 0;
              answers := <[lit "q2" := lit "A"]> ∅;
              isSubmitting := false; results := None |} in
  let payload := [ {| question_id := lit "q2";
                      selected_answer := lit "A" |} ] in
  run sample_questions events init = Some (s, []) /\
  map id other_questions = [lit "q1"] /\
  answeredCount s = length other_questions /\
  allAnswered other_questions s = true /\
  answers s !! lit "q1" = None /\
  step other_questions s ClickSubmit
    = Some (set_submitting true s, Some payload) /\
  run sample_questions (events ++ [ClickSubmit]) init
    = Some (set_submitting true s, [payload]) /\
  ~ (forall q, In q other_questions ->
       exists a, In {| question_id := id q; selected_answer := a |}
                   payload).
Proof.
  cbn zeta.
  repeat (split; [vm_compute; reflexivity|]).
  intros H. destruct (H _ (or_introl eq_refl)) as [a [Ha|[]]].
  vm_compute in Ha. discriminate.
Qed.

Section FixedQuestions.
Variable questions : list QuizQuestion.

(** X27 (complete submissions).  As long as the mounted component is not
    rendered with another [questions] prop, whatever the learner does from
    the initial state, the submit button is enabled only when the number of
    selected answers equals the number of questions, and then every
    question has a selected answer; every submission sent holds exactly one
    entry per question, with an entry for each question of the quiz. *)
Theorem fixed_questions_submission_complete events s sents :
  forallb keeps_questions events = true ->
  run questions events init = Some (s, sents) ->
  (forall s' sent, step questions s ClickSubmit = Some (s', sent) ->
     answeredCount s = length questions /\
     forall q, In q questions -> is_Some (answers s !! id q)) /\
  Forall (fun payload =>
            length payload = length questions /\
            forall q, In q questions ->
              exists a, In {| question_id := id q; selected_answer := a |}
                          payload) sents.
Proof.
  intros Hkeep Hrun.
  destruct (run_sent questions events init s sents Hkeep
              (init_answers_for_questions questions) Hrun)
    as [Inv Hall].
  split; [|exact Hall].
  intros s' sent Hstep.
  assert (Hans : allAnswered questions s = true).
  { cbn in Hstep. destruct (results s); [discriminate|].
    destruct (questions !! currentQuestionIndex s); [|discriminate].
    destruct (allAnswered questions s); [reflexivity | discriminate]. }
  split.
  - now apply Nat.eqb_eq in Hans.
  - now apply all_answered_covers.
Qed.
End FixedQuestions.

Lemma fixed_questions_submission_complete_witness :
  let events := [SelectOption 1; ClickNext; SelectOption 0; ClickSubmit] in
  let s := {| currentQuestionIndex := 1;
              answers := <[lit "q2" := lit "A"]> (<[lit "q1" := lit "B"]> ∅);
              isSubmitting := true; results := None |} in
  let sents := [submitted_answers s] in
  forallb keeps_questions events = true /\
  (forall s' sent, step sample_questions s ClickSubmit = Some (s', sent) ->
     answeredCount s = length sample_questions /\
     forall q, In q sample_questions -> is_Some (answers s !! id q)) /\
  Forall (fun payload =>
            length payload = length sample_questions /\
            forall q, In q sample_questions ->
              exists a, In {| question_id := id q; selected_answer := a |}
                          payload) sents.
Proof.
  cbn zeta. split; [reflexivity|].
  apply (fixed_questions_submission_complete sample_questions
           [SelectOption 1; ClickNext; SelectOption 0; ClickSubmit]).
  - reflexivity.
  - vm_compute. reflexivity.
Defined.

End QuizInterfaceFacts.

(** * Further properties of the parser *)

(** ** The matcher only returns matches *)

Lemma startsWith_app s p : startsWith s p = true -> s = p ++ drop (length p) s.
Proof.
  revert s. induction p as [|x p IH]; intros s H; [reflexivity|].
  destruct s as [|y s]; [discriminate|]. cbn in H.
  apply andb_true_iff in H as [Hxy Hp]. apply N.eqb_eq in Hxy. subst y.
  cbn. f_equal. now apply IH.
Qed.

Lemma startsWith_prefix p r : startsWith (p ++ r) p = true.
Proof.
  induction p as [|x p IH]; [now destruct r|]. cbn.
  unfold code_eqb. now rewrite N.eqb_refl.
Qed.

Lemma take_consumed (w s' : jsstring) :
  take (length (w ++ s') - length s') (w ++ s') = w.
Proof.
  rewrite length_app.
  replace (length w + length s' - length s')%nat with (length w) by lia.
  now rewrite take_app_length.
Qed.

Lemma plus_sound {A} (p : N -> bool) (k : jsstring -> option A) s a :
  plus p k s = Some a ->
  exists w s', s = w ++ s' /\ w <> [] /\
               Forall (fun c => p c = true) w /\ k s' = Some a.
Proof.
  revert a. induction s as [|c s IH]; intros a H; [discriminate|].
  cbn [plus] in H. destruct (p c) eqn:Hc; [|discriminate].
  destruct (plus p k s) as [b|] eqn:Hmore.
  - injection H as ->. destruct (IH a eq_refl) as (w & s' & -> & _ & Hw & Hk).
    exists (c :: w), s'. repeat split; [discriminate | now constructor | exact Hk].
  - exists [c], s. repeat split; [discriminate | now repeat constructor | exact H].
Qed.

Lemma run_sound {A} r : forall s caps (k : jsstring -> list jsstring -> option A) a,
  run r s caps k = Some a ->
  exists w s' caps',
    s = w ++ s' /\ matches r w caps caps' /\ k s' caps' = Some a.
Proof.
  induction r as [l|p|p|r1 IH1 r2 IH2|r IH]; intros s caps k a H; cbn [run] in H.
  - destruct (startsWith s l) eqn:E; [|discriminate].
    exists l, (drop (length l) s), caps.
    split; [now apply startsWith_app | split; [constructor | exact H]].
  - destruct s as [|c s]; [discriminate|].
    destruct (p c) eqn:E; [|discriminate].
    exists [c], s, caps. split; [reflexivity | split; [now constructor | exact H]].
  - apply plus_sound in H as (w & s' & -> & Hne & Hw & Hk).
    exists w, s', caps. split; [reflexivity | split; [now constructor | exact Hk]].
  - apply IH1 in H as (w1 & s1 & caps1 & -> & M1 & H).
    apply IH2 in H as (w2 & s2 & caps2 & -> & M2 & H).
    exists (w1 ++ w2), s2, caps2.
    split; [now rewrite app_assoc | split; [econstructor; eassumption | exact H]].
  - apply IH in H as (w & s' & caps' & -> & M & H).
    rewrite take_consumed in H.
    exists w, s', (caps' ++ [w]).
    split; [reflexivity | split; [now constructor | exact H]].
Qed.

Lemma match_here_sound r s caps rest :
  match_here r s = Some (caps, rest) ->
  exists w, s = w ++ rest /\ matches r w [] caps.
Proof.
  unfold match_here. intros H.
  apply run_sound in H as (w & s' & caps' & -> & M & [= <- <-]).
  now exists w.
Qed.

Lemma match_start_sound r s caps :
  match_start r s = Some caps ->
  exists w rest, s = w ++ rest /\ matches r w [] caps.
Proof.
  unfold match_start. destruct (match_here r s) as [[c rest]|] eqn:E; [|discriminate].
  intros [= <-]. apply match_here_sound in E as (w & -> & M). now exists w, rest.
Qed.

Lemma match_any_sound r s caps :
  match_any r s = Some caps ->
  exists before w rest, s = before ++ w ++ rest /\ matches r w [] caps.
Proof.
  induction s as [|c s IH]; cbn [match_any];
    destruct (match_here r _) as [[c0 rest]|] eqn:E.
  - intros [= <-]. apply match_here_sound in E as (w & Hs & M).
    exists [], w, rest. now split.
  - discriminate.
  - intros [= <-]. apply match_here_sound in E as (w & Hs & M).
    exists [], w, rest. now split.
  - intros H. apply IH in H as (before & w & rest & -> & M).
    exists (c :: before), w, rest. now split.
Qed.

Ltac invert_matches :=
  repeat match goal with
  | H : matches (Seq _ _) _ _ _ |- _ => inversion H; subst; clear H
  | H : matches (Grp _) _ _ _ |- _ => inversion H; subst; clear H
  | H : matches (Lit _) _ _ _ |- _ => inversion H; subst; clear H
  | H : matches (Cls _) _ _ _ |- _ => inversion H; subst; clear H
  | H : matches (Plus _) _ _ _ |- _ => inversion H; subst; clear H
  end.

(** ** What the parser's patterns capture *)

Lemma heading_match_prefix line m :
  match_start re_heading line = Some m ->
  startsWith line (lit "### Question ") = true.
Proof.
  intros H. apply match_start_sound in H as (w & rest & -> & M).
  unfold re_heading, cat in M. cbn [foldr] in M. invert_matches.
  rewrite <- !app_assoc. apply startsWith_prefix.
Qed.

Lemma option_bold_captures line m :
  match_start re_option_bold line = Some m ->
  exists c g, m = [[c]; g] /\ is_A_to_D c = true /\ g <> [].
Proof.
  intros H. apply match_start_sound in H as (w & rest & -> & M).
  unfold re_option_bold, cat in M. cbn [foldr] in M. invert_matches.
  eexists _, _. split; [reflexivity|]. now split.
Qed.

Lemma option_plain_captures line m :
  match_start re_option_plain line = Some m ->
  exists c g, m = [[c]; g] /\ is_A_to_D c = true /\ g <> [].
Proof.
  intros H. apply match_start_sound in H as (w & rest & -> & M).
  unfold re_option_plain, cat in M. cbn [foldr] in M. invert_matches.
  eexists _, _. split; [reflexivity|]. now split.
Qed.

Lemma answer_captures line m :
  match_any re_answer line = Some m ->
  exists c, m = [[c]] /\ is_A_to_D c = true.
Proof.
  intros H. apply match_any_sound in H as (before & w & rest & -> & M).
  unfold re_answer, cat in M. cbn [foldr] in M. invert_matches.
  eexists. split; [reflexivity | assumption].
Qed.

Lemma explanation_captures line m :
  match_any re_explanation line = Some m ->
  exists g, m = [g] /\ g <> [].
Proof.
  intros H. apply match_any_sound in H as (before & w & rest & -> & M).
  unfold re_explanation, cat in M. cbn [foldr] in M. invert_matches.
  eexists. split; [reflexivity | assumption].
Qed.

Lemma key_entry_captures line m :
  match_start re_key_entry line = Some m ->
  exists d c g, m = [d; [c]; g] /\ d <> [] /\
                Forall (fun x => is_digit x = true) d /\
                is_A_to_D c = true /\ g <> [].
Proof.
  intros H. apply match_start_sound in H as (w & rest & -> & M).
  unfold re_key_entry, cat in M. cbn [foldr] in M. invert_matches.
  eexists _, _, _. split; [reflexivity|]. repeat split; assumption.
Qed.

(** ** Keys and answers are letters *)

Lemma scan_well_keyed_with_current f st :
  (forall q, well_keyed q -> well_keyed (f q)) ->
  scan_well_keyed st -> scan_well_keyed (with_current f st).
Proof.
  intros Hf (Hqs & Hcur & Hans). split; [exact Hqs|]. split; [|exact Hans].
  intros q Hq. cbn in Hq.
  destruct (Scan.currentQuestion st) as [q0|]; [|discriminate].
  injection Hq as <-. apply Hf, Hcur. reflexivity.
Qed.

Lemma scan_well_keyed_on_heading line next st :
  scan_well_keyed st -> scan_well_keyed (on_heading line next st).
Proof.
  intros (Hqs & Hcur & Hans). unfold on_heading.
  destruct (match_start re_heading line); [|exact (conj Hqs (conj Hcur Hans))].
  split; [|split; [|exact Hans]]; cbn.
  - unfold finalize. destruct (Scan.currentQuestion st) as [q|]; [|exact Hqs].
    destruct (complete q); [|exact Hqs].
    apply Forall_app. split; [exact Hqs|]. constructor; [now apply Hcur | constructor].
  - intros q [= <-]. split; [constructor | now left].
Qed.

Lemma scan_well_keyed_on_option line st :
  scan_well_keyed st -> scan_well_keyed (on_option line st).
Proof.
  intros H. unfold on_option.
  assert (Hpush : forall m c g, m = [[c]; g] -> is_A_to_D c = true ->
            scan_well_keyed
              (with_current
                 (push_option {| key := group 1 m; text := trim (group 2 m) |}) st)).
  { intros m c g -> Hc. apply scan_well_keyed_with_current; [|exact H].
    intros q [Hk Ha]. split; [|exact Ha].
    unfold keys_are_letters. cbn. apply Forall_app. split; [exact Hk|].
    constructor; [exact Hc | constructor]. }
  destruct (match_start re_option_bold line) as [m|] eqn:Eb.
  - apply option_bold_captures in Eb as (c & g & -> & Hc & _). eauto.
  - destruct (match_start re_option_plain line) as [m|] eqn:Ep; [|exact H].
    apply option_plain_captures in Ep as (c & g & -> & Hc & _). eauto.
Qed.

Lemma scan_well_keyed_on_answer line st :
  scan_well_keyed st -> scan_well_keyed (on_answer line st).
Proof.
  intros H. unfold on_answer.
  destruct (match_any re_answer line) as [m|] eqn:E; [|exact H].
  apply answer_captures in E as (c & -> & Hc).
  apply scan_well_keyed_with_current; [|exact H].
  intros q [Hk _]. split; [exact Hk|]. right. exact Hc.
Qed.

Lemma scan_well_keyed_on_explanation line st :
  scan_well_keyed st -> scan_well_keyed (on_explanation line st).
Proof.
  intros H. unfold on_explanation.
  destruct (match_any re_explanation line); [|exact H].
  apply scan_well_keyed_with_current; [|exact H].
  intros q Hq. exact Hq.
Qed.

Lemma scan_well_keyed_on_key_line line st :
  scan_well_keyed st -> scan_well_keyed (on_key_line line st).
Proof.
  intros H. unfold on_key_line.
  destruct (match_start re_key_line line); [|exact H].
  destruct (match_start re_key_entry line) as [m|] eqn:E; [|exact H].
  apply key_entry_captures in E as (d & c & g & -> & _ & _ & Hc & _).
  destruct H as (Hqs & Hcur & Hans). split; [exact Hqs|]. split; [exact Hcur|].
  cbn. apply map_Forall_insert_2; [exact Hc | exact Hans].
Qed.

Lemma scan_well_keyed_step line next st :
  scan_well_keyed st -> scan_well_keyed (step line next st).
Proof.
  intros H. unfold step.
  apply scan_well_keyed_on_key_line, scan_well_keyed_on_explanation,
    scan_well_keyed_on_answer, scan_well_keyed_on_option,
    scan_well_keyed_on_heading, H.
Qed.

Lemma scan_well_keyed_scan lines : forall st,
  scan_well_keyed st -> scan_well_keyed (scan lines st).
Proof.
  induction lines as [|raw rest IH]; intros st H; [exact H|].
  cbn [scan]. apply IH. now apply scan_well_keyed_step.
Qed.

Lemma scan_well_keyed_init : scan_well_keyed Scan.init.
Proof.
  split; [constructor|]. split; [discriminate|]. apply map_Forall_empty.
Qed.

Lemma Forall_imap {A} (P : A -> Prop) (f : nat -> A -> A) (l : list A) :
  (forall i x, P x -> P (f i x)) -> Forall P l -> Forall P (imap f l).
Proof.
  revert f. induction l as [|x l IH]; intros f Hf H; [constructor|].
  inversion H as [|? ? Hx Hl]; subst. cbn [imap]. constructor; [now apply Hf|].
  apply IH; [|exact Hl]. intros i y. apply Hf.
Qed.

Lemma parsed_questions_well_keyed lines :
  Forall well_keyed (parsed_questions lines).
Proof.
  unfold parsed_questions. cbn zeta.
  destruct (scan_well_keyed_scan lines Scan.init scan_well_keyed_init)
    as (Hqs & Hcur & Hans).
  apply Forall_imap.
  - intros i q [Hk Ha].
    destruct (Scan.answers (scan lines Scan.init) !! N.of_nat (i + 1))
      as [a|] eqn:E; [|now split].
    split; [exact Hk|]. right. cbn. exact (Hans _ _ E).
  - unfold scanned_questions, finalize.
    destruct (Scan.currentQuestion (scan lines Scan.init)) as [q|]; [|exact Hqs].
    destruct (complete q); [|exact Hqs].
    apply Forall_app. split; [exact Hqs|]. constructor; [now apply Hcur | constructor].
Qed.

(** X1 (option keys).  In every quiz the parser returns, each option key of
    each question is one letter out of A, B, C, D. *)
Theorem option_keys_are_letters filePath w quiz w' :
  parseQuizFile filePath w = (Some quiz, w') ->
  Forall keys_are_letters (questions quiz).
Proof.
  intros P. apply parseQuizFile_Some in P as (content & _ & _ & -> & _).
  cbn [questions]. eapply List.Forall_impl; [|apply parsed_questions_well_keyed].
  now intros q [Hk _].
Qed.

Lemma option_keys_are_letters_witness :
  Forall keys_are_letters (questions sample_quiz).
Proof.
  apply (option_keys_are_letters sample_path (one_file sample_path sample_doc)
           sample_quiz (one_file sample_path sample_doc)).
  vm_compute. reflexivity.
Defined.

(** X2 (correct answers).  In every quiz the parser returns, the correct
    answer of each question is empty or one letter out of A, B, C, D,
    whether it came from an inline annotation or from the answer key. *)
Theorem correct_answers_are_letters filePath w quiz w' :
  parseQuizFile filePath w = (Some quiz, w') ->
  Forall answer_is_letter_or_empty (questions quiz).
Proof.
  intros P. apply parseQuizFile_Some in P as (content & _ & _ & -> & _).
  cbn [questions]. eapply List.Forall_impl; [|apply parsed_questions_well_keyed].
  now intros q [_ Ha].
Qed.

Lemma correct_answers_are_letters_witness :
  Forall answer_is_letter_or_empty (questions no_options_quiz).
Proof.
  apply (correct_answers_are_letters (lit "quiz.md")
           (one_file (lit "quiz.md") no_options_doc) no_options_quiz
           (console_log (Console.QuestionsMissingAnswers 1 (lit "quiz.md"))
              (one_file (lit "quiz.md") no_options_doc))).
  vm_compute. reflexivity.
Defined.

(** ** Documents without question headings *)

Lemma scan_idle_with_current f st :
  scan_idle st -> scan_idle (with_current f st).
Proof.
  intros (Hc & Hq & Hn). unfold scan_idle, with_current. cbn.
  now rewrite Hc.
Qed.

Lemma scan_idle_step line next st :
  match_start re_heading line = None ->
  scan_idle st -> scan_idle (step line next st).
Proof.
  intros Hh H. unfold step, on_heading. rewrite Hh.
  assert (H1 : scan_idle (on_option line st)).
  { unfold on_option.
    destruct (match_start re_option_bold line);
      [|destruct (match_start re_option_plain line)];
      auto using scan_idle_with_current. }
  assert (H2 : scan_idle (on_answer line (on_option line st))).
  { unfold on_answer. destruct (match_any re_answer line);
      auto using scan_idle_with_current. }
  assert (H3 : scan_idle (on_explanation line (on_answer line (on_option line st)))).
  { unfold on_explanation. destruct (match_any re_explanation line);
      auto using scan_idle_with_current. }
  unfold on_key_line.
  destruct (match_start re_key_line line); [|exact H3].
  destruct (match_start re_key_entry line); exact H3.
Qed.

Lemma scan_idle_scan lines : forall st,
  Forall (fun raw => match_start re_heading (trim raw) = None) lines ->
  scan_idle st -> scan_idle (scan lines st).
Proof.
  induction lines as [|raw rest IH]; intros st Hl H; [exact H|].
  inversion Hl as [|? ? Hraw Hrest]; subst.
  cbn [scan]. apply IH; [exact Hrest|]. now apply scan_idle_step.
Qed.

Lemma no_heading_prefix line :
  startsWith line (lit "### Question ") = false ->
  match_start re_heading line = None.
Proof.
  intros H. destruct (match_start re_heading line) as [m|] eqn:E; [|reflexivity].
  apply heading_match_prefix in E. congruence.
Qed.

Lemma no_heading_no_questions lines :
  Forall (fun raw => startsWith (trim raw) (lit "### Question ") = false) lines ->
  parsed_questions lines = [].
Proof.
  intros H. unfold parsed_questions. cbn zeta.
  destruct (scan_idle_scan lines Scan.init) as (Hc & Hq & _).
  - eapply List.Forall_impl; [|exact H]. intros raw. apply no_heading_prefix.
  - repeat split.
  - unfold scanned_questions. now rewrite Hc, Hq.
Qed.

(** X3 (no heading).  A readable document in which no trimmed line starts with
    ["### Question "] gives [null], with the "no questions found" warning,
    whatever option, answer or answer-key lines it holds. *)
Theorem no_heading_no_quiz filePath w content :
  readFileSync w filePath = Some content ->
  Forall (fun raw => startsWith (trim raw) (lit "### Question ") = false)
    (lines_of content) ->
  parseQuizFile filePath w
  = (None, console_log (Console.NoQuestionsFound filePath) w).
Proof.
  intros Hread H. apply (parseQuizFile_empty _ _ _ Hread).
  now apply no_heading_no_questions.
Qed.

Lemma no_heading_no_quiz_witness :
  parseQuizFile (lit "notes-quiz.md")
    (one_file (lit "notes-quiz.md")
       (unlines [lit "# Notes"; lit "A) x"; lit "**Answer: A)**";
                 lit "1. **A** - because"; lit "## Question 1: no"]))
  = (None,
     console_log (Console.NoQuestionsFound (lit "notes-quiz.md"))
       (one_file (lit "notes-quiz.md")
          (unlines [lit "# Notes"; lit "A) x"; lit "**Answer: A)**";
                    lit "1. **A** - because"; lit "## Question 1: no"]))).
Proof.
  apply (no_heading_no_quiz _ _
           (unlines [lit "# Notes"; lit "A) x"; lit "**Answer: A)**";
                     lit "1. **A** - because"; lit "## Question 1: no"])).
  - vm_compute. reflexivity.
  - vm_compute. repeat constructor.
Defined.

(** ** The title *)

Lemma remove_all_class (p : N -> bool) s :
  remove_all (Cls p) s = List.filter (fun c => negb (p c)) s.
Proof.
  unfold remove_all. induction s as [|c s IH]; [reflexivity|].
  cbn [remove_all_from List.filter]. unfold match_here. cbn [run].
  destruct (p c); cbn [negb].
  - replace (length (c :: s) - length s - 1)%nat with 0%nat by (cbn; lia).
    exact IH.
  - now rewrite IH.
Qed.

Lemma Forall_trimStart (P : N -> Prop) s : Forall P s -> Forall P (trimStart s).
Proof.
  induction 1 as [|c s Hc Hs IH]; [constructor|]. cbn [trimStart].
  destruct (is_space c); [exact IH | now constructor].
Qed.

Lemma Forall_trimEnd (P : N -> Prop) s : Forall P s -> Forall P (trimEnd s).
Proof.
  induction 1 as [|c s Hc Hs IH]; [constructor|]. cbn [trimEnd].
  destruct (trimEnd s) as [|d t].
  - destruct (is_space c); [constructor | now repeat constructor].
  - now constructor.
Qed.

Lemma Forall_trim (P : N -> Prop) s : Forall P s -> Forall P (trim s).
Proof. intros H. now apply Forall_trimEnd, Forall_trimStart. Qed.

Lemma trim_is_trimmed s : is_trimmed (trim s).
Proof. split; [apply trim_starts_tight | apply trimEnd_trim]. Qed.

Lemma remove_first_prefix p s :
  startsWith s p = true -> remove_first p s = drop (length p) s.
Proof. intros H. destruct s; cbn [remove_first]; now rewrite H. Qed.

Lemma extract_title_at_first_heading pre line post :
  Forall (fun l => startsWith l (lit "# ") = false) pre ->
  startsWith line (lit "# ") = true ->
  extract_title [] (pre ++ line :: post)
  = trim (List.filter kept_in_title (drop 2 line)).
Proof.
  intros Hpre Hline. induction Hpre as [|l pre Hl _ IH]; cbn [app extract_title].
  - rewrite Hline. cbn [truthy negb andb].
    now rewrite remove_all_class, (remove_first_prefix _ _ Hline).
  - rewrite Hl. exact IH.
Qed.

(** X4 (the title line).  The title is read from the first line that starts
    with ["# "] and from no other: it is that line without its first two code
    units and without the decoration code units, trimmed.  Lines after it,
    further headings included, play no role, even when this title is
    empty. *)
Theorem title_from_first_heading_only pre line post :
  Forall (fun l => startsWith l (lit "# ") = false) pre ->
  startsWith line (lit "# ") = true ->
  extract_title [] (pre ++ line :: post)
  = trim (List.filter kept_in_title (drop 2 line)) /\
  forall post', extract_title [] (pre ++ line :: post')
                = extract_title [] (pre ++ line :: post).
Proof.
  intros Hpre Hline. split.
  - now apply extract_title_at_first_heading.
  - intros post'. now rewrite !extract_title_at_first_heading.
Qed.

Lemma title_from_first_heading_only_witness :
  extract_title []
    ([lit "intro"] ++ (lit "#  " ++ [0x2728]) :: [lit "# Real title"])
  = trim (List.filter kept_in_title (drop 2 (lit "#  " ++ [0x2728]))) /\
  forall post', extract_title [] ([lit "intro"] ++ (lit "#  " ++ [0x2728]) :: post')
                = extract_title []
                    ([lit "intro"] ++ (lit "#  " ++ [0x2728]) :: [lit "# Real title"]).
Proof.
  apply (title_from_first_heading_only [lit "intro"] (lit "#  " ++ [0x2728])
           [lit "# Real title"]).
  - repeat constructor.
  - reflexivity.
Defined.

Lemma extract_title_clean lines :
  is_trimmed (extract_title [] lines) /\
  Forall (fun c => is_title_decoration c = false) (extract_title [] lines).
Proof.
  induction lines as [|line rest IH]; cbn [extract_title].
  - split; [split; reflexivity | constructor].
  - destruct (startsWith line (lit "# ")); cbn [truthy negb andb]; [|exact IH].
    split; [apply trim_is_trimmed|].
    apply Forall_trim. rewrite remove_all_class.
    apply List.Forall_forall. intros c Hc.
    apply List.filter_In in Hc as [_ Hc]. now apply negb_true_iff in Hc.
Qed.

(** X5 (a clean title).  The title of a returned quiz has no white space at
    either end and holds none of the decoration code units D83C, DFAF and
    2728. *)
Theorem title_is_clean filePath w quiz w' :
  parseQuizFile filePath w = (Some quiz, w') ->
  is_trimmed (title quiz) /\
  Forall (fun c => is_title_decoration c = false) (title quiz).
Proof.
  intros P. apply parseQuizFile_Some in P as (content & _ & _ & -> & _).
  cbn [title]. unfold or_else.
  destruct (truthy (extract_title [] (lines_of content))).
  - apply extract_title_clean.
  - split; [split; reflexivity | vm_compute; repeat constructor].
Qed.

Lemma title_is_clean_witness :
  is_trimmed (title sample_quiz) /\
  Forall (fun c => is_title_decoration c = false) (title sample_quiz).
Proof.
  apply (title_is_clean sample_path (one_file sample_path sample_doc)
           sample_quiz (one_file sample_path sample_doc)).
  vm_compute. reflexivity.
Defined.

(** ** The description without a title line *)

Lemma description_loop_no_heading lines :
  Forall (fun l => startsWith l (lit "# ") = false) lines ->
  description_loop false [] lines = [].
Proof.
  induction 1 as [|line rest Hl _ IH]; [reflexivity|].
  cbn [description_loop]. rewrite Hl. cbn [andb]. exact IH.
Qed.

(** X6 (description without title).  When no line of the document starts with
    ["# "], no description text is collected and a returned quiz carries the
    default description, whatever text the document holds. *)
Theorem no_title_line_default_description filePath w quiz w' content :
  parseQuizFile filePath w = (Some quiz, w') ->
  readFileSync w filePath = Some content ->
  Forall (fun l => startsWith l (lit "# ") = false) (lines_of content) ->
  description quiz = lit "Test your knowledge!".
Proof.
  intros P Hread H.
  apply parseQuizFile_Some in P as (content' & Hread' & _ & -> & _).
  rewrite Hread in Hread'. injection Hread' as <-.
  cbn [description]. unfold extract_description.
  now rewrite (description_loop_no_heading _ H).
Qed.

Lemma no_title_line_default_description_witness :
  description
    {| chapter_id := lit "bare"; title := lit "Quiz";
       description := lit "Test your knowledge!"; passing_percentage := 70;
       questions :=
         [{| id := lit "q1"; question := lit "Which one?";
             options := [{| key := lit "A"; text := lit "x" |}];
             correct_answer := lit "A"; explanation := [] |}] |}
  = lit "Test your knowledge!".
Proof.
  apply (no_title_line_default_description (lit "bare.md")
           (one_file (lit "bare.md")
              (unlines [lit "Some text."; lit "### Question 1: Topic";
                        lit "**Which one?**"; lit "**A)** x";
                        lit "**Answer: A)**"]))
           _
           (one_file (lit "bare.md")
              (unlines [lit "Some text."; lit "### Question 1: Topic";
                        lit "**Which one?**"; lit "**A)** x";
                        lit "**Answer: A)**"]))
           (unlines [lit "Some text."; lit "### Question 1: Topic";
                     lit "**Which one?**"; lit "**A)** x";
                     lit "**Answer: A)**"])).
  - vm_compute. reflexivity.
  - vm_compute. reflexivity.
  - vm_compute. repeat constructor.
Defined.

(** ** The text of a heading *)

Lemma split_nonempty sep s : split sep s <> [].
Proof.
  destruct s as [|c s]; cbn [split]; [discriminate|].
  destruct (sep c); [discriminate|]. destruct (split sep s); discriminate.
Qed.

Lemma join_cons_nonempty sep p rest :
  rest <> [] -> join sep (p :: rest) = p ++ sep ++ join sep rest.
Proof. destruct rest; [contradiction | reflexivity]. Qed.

Lemma join_split k s :
  join [k] (split (fun c => c =? k) s) = s.
Proof.
  induction s as [|c s IH]; [reflexivity|]. cbn [split].
  destruct (c =? k) eqn:E.
  - apply N.eqb_eq in E. subst c.
    rewrite join_cons_nonempty by apply split_nonempty. cbn. now rewrite IH.
  - destruct (split (fun c => c =? k) s) as [|piece pieces] eqn:Es.
    + now destruct (split_nonempty _ _ Es).
    + rewrite <- IH. now destruct pieces.
Qed.

Lemma split_at_first sep a k b :
  Forall (fun c => sep c = false) a -> sep k = true ->
  split sep (a ++ k :: b) = a :: split sep b.
Proof.
  intros Ha Hk. induction Ha as [|c a Hc _ IH]; cbn [app split].
  - now rewrite Hk.
  - now rewrite Hc, IH.
Qed.

Lemma digit_not_colon c : is_digit c = true -> is_colon c = false.
Proof.
  unfold is_digit, is_colon. intros H. apply andb_true_iff in H as [_ H].
  apply N.leb_le in H. apply N.eqb_neq. lia.
Qed.

(** X7 (heading text).  For a heading ["### Question N:rest"], the text taken
    from the heading is the whole [rest], trimmed, colons inside it
    included; it is used exactly when there is no next line or the next line
    is empty once its ["**"] marks are removed and it is trimmed. *)
Theorem heading_text_keeps_colons questionNumber digits rest next :
  Forall (fun c => is_digit c = true) digits ->
  question
    (new_question questionNumber
       (lit "### Question " ++ digits ++ lit ":" ++ rest) next)
  = match next with
    | Some l => or_else (trim (remove_all (Lit (lit "**")) l)) (trim rest)
    | None => trim rest
    end.
Proof.
  intros Hd. unfold new_question. cbn [question].
  assert (E : join (lit ":")
                (drop 1 (split is_colon
                           (lit "### Question " ++ digits ++ lit ":" ++ rest)))
              = rest).
  { rewrite app_assoc.
    change (lit ":" ++ rest) with (58 :: rest).
    rewrite split_at_first; [|apply Forall_app; split|reflexivity].
    - cbn [drop]. apply (join_split 58).
    - vm_compute. repeat constructor.
    - eapply List.Forall_impl; [|exact Hd]. apply digit_not_colon. }
  now rewrite E.
Qed.

Lemma heading_text_keeps_colons_witness :
  question
    (new_question 3
       (lit "### Question " ++ lit "12" ++ lit ":" ++ lit " Lists: why? ")
       (Some (lit " ** ** ")))
  = or_else (trim (remove_all (Lit (lit "**")) (lit " ** ** ")))
      (trim (lit " Lists: why? ")).
Proof.
  apply (heading_text_keeps_colons 3 (lit "12") (lit " Lists: why? ")
           (Some (lit " ** ** "))).
  vm_compute. repeat constructor.
Defined.

(** ** What the answer-key pass leaves alone *)

(** X8 (the answer-key pass).  Applying the answer key neither adds, drops nor
    reorders questions, and changes no identifier, question text or option
    list. *)
Theorem answer_key_keeps_questions lines :
  let scanned := scanned_questions (scan lines Scan.init) in
  let parsed := parsed_questions lines in
  length parsed = length scanned /\
  map id parsed = map id scanned /\
  map question parsed = map question scanned /\
  map options parsed = map options scanned.
Proof.
  cbn zeta. unfold parsed_questions. cbn zeta. split; [|split; [|split]].
  - apply length_match_answers.
  - apply id_match_answers.
  - apply question_match_answers.
  - apply map_imap_preserved. intros i q.
    destruct (_ !! N.of_nat (i + 1)); reflexivity.
Qed.

(** ** The chapter identifier, continued *)

Lemma split_separator_free sep s :
  Forall (fun piece => Forall (fun c => sep c = false) piece) (split sep s).
Proof.
  induction s as [|c s IH]; cbn [split]; [repeat constructor|].
  destruct (sep c) eqn:E.
  - constructor; [constructor | exact IH].
  - destruct (split sep s) as [|piece pieces]; [repeat constructor; exact E|].
    inversion IH as [|? ? Hp Hps]; subst.
    constructor; [now constructor | exact Hps].
Qed.

Lemma find_In {A} (pred : A -> bool) l x : find pred l = Some x -> In x l.
Proof.
  induction l as [|y l IH]; cbn; [discriminate|].
  destruct (pred y); [intros [= <-]; now left | intros H; right; now apply IH].
Qed.

Lemma last_In_or_default {A} (l : list A) d : l <> [] -> In (List.last l d) l.
Proof.
  induction l as [|x l IH]; [contradiction|]. intros _.
  destruct l as [|y l]; [now left|]. right. apply IH. discriminate.
Qed.

Lemma Forall_remove_first (P : N -> Prop) p s :
  Forall P s -> Forall P (remove_first p s).
Proof.
  induction 1 as [|c s Hc Hs IH]; cbn [remove_first].
  - destruct (startsWith [] p); try rewrite drop_nil; constructor.
  - destruct (startsWith (c :: s) p).
    + apply Forall_drop. now constructor.
    + now constructor.
Qed.

(** X9 (no separator).  The chapter identifier of any path holds neither ["/"]
    nor a backslash. *)
Theorem extractChapterId_separator_free filePath :
  separator_free (extractChapterId filePath).
Proof.
  unfold extractChapterId, separator_free.
  pose proof (split_separator_free is_path_separator filePath) as Hall.
  rewrite List.Forall_forall in Hall.
  destruct (find _ (split is_path_separator filePath)) as [p|] eqn:E.
  - destruct (truthy p).
    + apply Forall_app. split; [apply Hall; eapply find_In; exact E|].
      vm_compute. repeat constructor.
    + apply Forall_remove_first, Hall, last_In_or_default, split_nonempty.
  - apply Forall_remove_first, Hall, last_In_or_default, split_nonempty.
Qed.

(** X10 (the file name).  For a quiz file whose path has no segment that
    starts with ["chapter-"], the base name included, and whose base name is
    a stem followed by [".md"], with no other [".md"] in it, the returned
    quiz carries the stem as its chapter identifier. *)
Theorem chapter_id_from_file_name filePath stem w quiz w' :
  parseQuizFile filePath w = (Some quiz, w') ->
  find (fun p => startsWith p (lit "chapter-"))
    (split is_path_separator filePath) = None ->
  List.last (split is_path_separator filePath) [] = stem ++ lit ".md" ->
  includes stem (lit ".md") = false ->
  chapter_id quiz = stem.
Proof.
  intros P Hnone Hlast Hstem.
  apply parseQuizFile_Some in P as (content & _ & _ & -> & _).
  cbn [chapter_id]. now apply extractChapterId_md_extension.
Qed.

Lemma chapter_id_from_file_name_witness :
  chapter_id skipping_quiz = lit "quiz".
Proof.
  apply (chapter_id_from_file_name (lit "quiz.md") (lit "quiz")
           (one_file (lit "quiz.md") skipping_doc) skipping_quiz
           (one_file (lit "quiz.md") skipping_doc));
    vm_compute; reflexivity.
Defined.

(** ** What a parse reports *)

(** X11 (reporting).  A call of [parseQuizFile] leaves the files as they are
    and only appends to the console, at most one message; when it returns
    [null] it appends exactly one, so a skipped file is always reported. *)
Theorem parse_reports_skipped_files filePath w :
  let result := parseQuizFile filePath w in
  fs (snd result) = fs w /\
  exists messages,
    console (snd result) = console w ++ messages /\
    (length messages <= 1)%nat /\
    (fst result = None -> length messages = 1%nat).
Proof.
  cbn zeta. split; [apply parseQuizFile_keeps_files|].
  unfold parseQuizFile. destruct (readFileSync w filePath) as [content|].
  - destruct (Nat.eqb _ 0).
    + eexists [_]. cbn. split; [reflexivity|]. split; [lia | reflexivity].
    + destruct (Nat.ltb 0 _).
      * eexists [_]. cbn. split; [reflexivity|]. split; [lia | discriminate].
      * exists []. cbn. rewrite app_nil_r.
        split; [reflexivity|]. split; [lia | discriminate].
  - eexists [_]. cbn. split; [reflexivity|]. split; [lia | reflexivity].
Qed.

(** * Finding the quiz files *)

Section FindQuizFilesFacts.
Variable join : jsstring -> jsstring -> jsstring.

Lemma findQuizFiles_listing d : forall dir fileList,
  match d with
  | Dir _ =>
      findQuizFiles join dir d fileList
      = if readable d then Some (fileList ++ quiz_files join dir d) else None
  | _ => True
  end.
Proof.
  induction d as [|files IH| |] using node_induction; intros dir fileList;
    try exact I.
  cbn [findQuizFiles quiz_files readable]. revert fileList.
  induction IH as [|[file n] rest Hn _ IHrest]; intros fileList.
  - cbn. now rewrite app_nil_r.
  - cbn [forEach flat_map forallb]. cbn [snd] in Hn.
    destruct n as [|sub| |].
    + cbn [readable andb].
      fold (is_quiz_file_name file). destruct (is_quiz_file_name file).
      * rewrite IHrest.
        destruct (forallb _ rest); [now rewrite <- app_assoc | reflexivity].
      * apply IHrest.
    + rewrite (Hn (join dir file) fileList).
      destruct (readable (Dir sub)); cbn [andb]; [|reflexivity].
      rewrite IHrest.
      destruct (forallb _ rest); [now rewrite <- app_assoc | reflexivity].
    + reflexivity.
    + reflexivity.
Qed.

Lemma file_at_File dir path name : ~ file_at join dir File path name.
Proof. intros H. inversion H. Qed.

Lemma quiz_files_In d : forall dir path,
  In path (quiz_files join dir d)
  <-> exists name, file_at join dir d path name /\
                   is_quiz_file_name name = true.
Proof.
  induction d as [|files IH| |] using node_induction; intros dir path.
  - cbn. split; [contradiction|]. intros (name & H & _).
    now apply file_at_File in H.
  - cbn [quiz_files]. rewrite List.in_flat_map. split.
    + intros ([file n] & Hin & Hpath).
      destruct n as [|sub| |]; try contradiction.
      * destruct (is_quiz_file_name file) eqn:E; [|contradiction].
        destruct Hpath as [<-|[]]. exists file. split; [|exact E].
        now constructor.
      * rewrite List.Forall_forall in IH.
        apply (IH _ Hin) in Hpath as (name & Hat & Hname).
        exists name. split; [|exact Hname]. econstructor; eassumption.
    + intros (name & Hat & Hname).
      inversion Hat as [? ? ? Hin|? ? sub n ? ? Hin Hbelow]; subst.
      * exists (name, File). split; [exact Hin|]. rewrite Hname. now left.
      * exists (sub, n). split; [exact Hin|].
        destruct n as [|subfiles| |]; try (now inversion Hbelow).
        rewrite List.Forall_forall in IH. apply (IH _ Hin). now exists name.
  - cbn. split; [contradiction|]. intros (name & H & _). inversion H.
  - cbn. split; [contradiction|]. intros (name & H & _). inversion H.
Qed.

(** X12 (the shared list).  On a directory in which every name resolves and
    every directory can be read, at any depth, [findQuizFiles] keeps every
    path already in the list it is given, in place, and appends what it
    finds; what it appends does not depend on the list given.  On any other
    directory the call throws: a name that [statSync] cannot resolve, or a
    directory that [readdirSync] cannot read, anywhere in the tree, ends
    the whole search. *)
Theorem findQuizFiles_appends dir files fileList :
  if readable (Dir files) then
    exists found,
      findQuizFiles join dir (Dir files) [] = Some found /\
      findQuizFiles join dir (Dir files) fileList = Some (fileList ++ found)
  else findQuizFiles join dir (Dir files) fileList = None.
Proof.
  pose proof (findQuizFiles_listing (Dir files) dir []) as E0.
  pose proof (findQuizFiles_listing (Dir files) dir fileList) as E.
  cbv beta iota in E0, E.
  destruct (readable (Dir files)); [|exact E].
  exists (quiz_files join dir (Dir files)). now split.
Qed.

(** X13 (what is found).  The paths [findQuizFiles] returns for a directory are
    exactly the joined paths of the files, at any depth, whose name includes
    ["quiz"] and ends with [".md"]; a directory is never listed, whatever
    its name, and is always searched. *)
Theorem findQuizFiles_finds_exactly dir files found :
  findQuizFiles join dir (Dir files) [] = Some found ->
  forall path,
    In path found
    <-> exists name, file_at join dir (Dir files) path name /\
                     is_quiz_file_name name = true.
Proof.
  intros H path.
  pose proof (findQuizFiles_listing (Dir files) dir []) as E.
  cbv beta iota in E. rewrite E in H.
  destruct (readable (Dir files)); [|discriminate].
  cbn [app] in H. injection H as <-.
  exact (quiz_files_In (Dir files) dir path).
Qed.
End FindQuizFilesFacts.

Lemma findQuizFiles_finds_exactly_witness :
  In (lit "docs/chapter-02-markdown/06-quiz-markdown.md")
    [lit "docs/chapter-02-markdown/06-quiz-markdown.md";
     lit "docs/quiz-notes.md"]
  <-> exists name,
        file_at slash_join (lit "docs") sample_tree
          (lit "docs/chapter-02-markdown/06-quiz-markdown.md") name /\
        is_quiz_file_name name = true.
Proof.
  apply (findQuizFiles_finds_exactly slash_join (lit "docs")).
  vm_compute. reflexivity.
Defined.

(** A link without target in a subdirectory ends the search of the whole
    tree, although two quiz files can be read. *)
Lemma findQuizFiles_broken_tree :
  readable broken_tree = false /\
  findQuizFiles slash_join (lit "docs") broken_tree [] = None /\
  quiz_files slash_join (lit "docs") broken_tree
  = [lit "docs/chapter-02-markdown/06-quiz-markdown.md";
     lit "docs/quiz-notes.md"].
Proof. repeat split; vm_compute; reflexivity. Qed.

(** * Further properties of the quiz component *)

Module QuizInterfaceRunFacts.
Import QuizInterface QuizInterfaceRuns.
Local Open Scope nat_scope.

Section StepFacts.
Variable questions : list QuizQuestion.

Lemma step_cases s e s' sent :
  step questions s e = Some (s', sent) ->
  match e with
  | SelectOption i =>
      results s = None /\ sent = None /\
      exists currentQuestion opt,
        questions !! currentQuestionIndex s = Some currentQuestion /\
        options currentQuestion !! i = Some opt /\
        s' = handleAnswerSelect (id currentQuestion) (key opt) s
  | ClickNext =>
      results s = None /\ sent = None /\
      currentQuestionIndex s + 1 <> length questions /\
      s' = handleNext questions s
  | ClickPrevious =>
      results s = None /\ sent = None /\
      currentQuestionIndex s <> 0 /\ s' = handlePrevious s
  | ClickSubmit =>
      results s = None /\ isSubmitting s = false /\
      allAnswered questions s = true /\
      sent = Some (submitted_answers s) /\ s' = set_submitting true s
  | ClickRetake =>
      results s <> None /\ sent = None /\ s' = handleRetake s
  | SubmitSucceeded scoredQuiz =>
      sent = None /\ s' = set_submitting false (set_results scoredQuiz s)
  | SubmitFailed => sent = None /\ s' = set_submitting false s
  | QuestionsChanged _ => sent = None /\ s' = s
  end.
Proof.
  intros H. destruct e; cbn in H.
  - destruct (results s); [discriminate|].
    destruct (questions !! currentQuestionIndex s) as [cq|] eqn:Ecq; [|discriminate].
    destruct (options cq !! i) as [opt|] eqn:Eo; [|discriminate].
    injection H as <- <-. repeat split. now exists cq, opt.
  - destruct (results s); [discriminate|].
    destruct (questions !! currentQuestionIndex s); [|discriminate].
    destruct (Nat.eqb _ _) eqn:E; [discriminate|].
    injection H as <- <-. apply Nat.eqb_neq in E. now repeat split.
  - destruct (results s); [discriminate|].
    destruct (questions !! currentQuestionIndex s); [|discriminate].
    destruct (Nat.eqb _ _) eqn:E; [discriminate|].
    injection H as <- <-. apply Nat.eqb_neq in E. now repeat split.
  - destruct (results s); [discriminate|].
    destruct (questions !! currentQuestionIndex s); [|discriminate].
    destruct (allAnswered questions s); [|discriminate].
    destruct (isSubmitting s); [discriminate|].
    cbn in H. injection H as <- <-. now repeat split.
  - destruct (results s) eqn:E; [|discriminate].
    injection H as <- <-. now repeat split.
  - injection H as <- <-. now split.
  - injection H as <- <-. now split.
  - destruct (results s); [|destruct (newQuestions !! _); [|discriminate]];
      injection H as <- <-; now split.
Qed.

Lemma step_index_in_range s e s' sent :
  index_in_range questions s ->
  step questions s e = Some (s', sent) ->
  index_in_range questions s'.
Proof.
  unfold index_in_range. intros Inv H Hne. specialize (Inv Hne).
  apply step_cases in H. destruct e.
  - destruct H as (_ & _ & cq & opt & _ & _ & ->). exact Inv.
  - destruct H as (_ & _ & _ & ->). unfold handleNext.
    destruct (Nat.ltb _ _) eqn:E; [|exact Inv].
    apply Nat.ltb_lt in E. cbn. exact E.
  - destruct H as (_ & _ & _ & ->). unfold handlePrevious.
    destruct (Nat.ltb _ _); [|exact Inv]. cbn. lia.
  - destruct H as (_ & _ & _ & _ & ->). exact Inv.
  - destruct H as (_ & _ & ->). cbn. destruct questions; [contradiction | cbn; lia].
  - destruct H as (_ & ->). exact Inv.
  - destruct H as (_ & ->). exact Inv.
  - destruct H as (_ & ->). exact Inv.
Qed.

Lemma run_index_in_range events : forall s0 s sents,
  forallb keeps_questions events = true ->
  index_in_range questions s0 ->
  run questions events s0 = Some (s, sents) ->
  index_in_range questions s.
Proof.
  induction events as [|e events IH]; intros s0 s sents Hkeep Inv H.
  - cbn in H. now injection H as <- _.
  - cbn [run] in H.
    cbn [forallb] in Hkeep. apply andb_true_iff in Hkeep as [He Hkeep].
    destruct (step questions s0 e) as [[s1 sent]|] eqn:Hstep; [|discriminate].
    replace (questions_after questions e) with questions in H
      by (destruct e; [reflexivity..|discriminate]).
    destruct (run questions events s1) as [[s2 rest]|] eqn:Hrest; [|discriminate].
    injection H as <- _. eapply IH; [exact Hkeep| |exact Hrest].
    eapply step_index_in_range; eassumption.
Qed.
End StepFacts.

Lemma run_submissions_bounded events : forall questions s0 s sents,
  run questions events s0 = Some (s, sents) ->
  length sents + submissions_allowed s
  <= submissions_allowed s0 + length (List.filter is_response events).
Proof.
  induction events as [|e events IH]; intros questions s0 s sents H.
  - cbn in H. injection H as <- <-. cbn. lia.
  - cbn [run] in H.
    destruct (step questions s0 e) as [[s1 sent]|] eqn:Hstep; [|discriminate].
    destruct (run (questions_after questions e) events s1)
      as [[s2 rest]|] eqn:Hrest; [|discriminate].
    injection H as <- <-. specialize (IH _ _ _ _ Hrest).
    rewrite length_app. apply step_cases in Hstep.
    unfold submissions_allowed in *.
    destruct e; cbn [List.filter is_response length].
    + destruct Hstep as (_ & -> & cq & opt & _ & _ & ->). cbn in *. lia.
    + destruct Hstep as (_ & -> & _ & ->). unfold handleNext in IH.
      destruct (Nat.ltb _ _); cbn in *; lia.
    + destruct Hstep as (_ & -> & _ & ->). unfold handlePrevious in IH.
      destruct (Nat.ltb _ _); cbn in *; lia.
    + destruct Hstep as (_ & Hs & _ & -> & ->). rewrite Hs. cbn in *. lia.
    + destruct Hstep as (_ & -> & ->). cbn in *. lia.
    + destruct Hstep as (-> & ->). cbn in *. destruct (isSubmitting s0); lia.
    + destruct Hstep as (-> & ->). cbn in *. destruct (isSubmitting s0); lia.
    + destruct Hstep as (-> & ->). cbn in *. lia.
Qed.

Section RunFacts.
Variable questions : list QuizQuestion.

(** X14 (the current question).  For a quiz with at least one question, after
    any sequence of events from the initial state that does not render the
    mounted component with another [questions] prop, the index is within
    the question list, so the current question is defined. *)
Theorem current_question_always_defined events s sents :
  questions <> [] ->
  forallb keeps_questions events = true ->
  run questions events init = Some (s, sents) ->
  currentQuestionIndex s < length questions /\
  is_Some (questions !! currentQuestionIndex s).
Proof.
  intros Hne Hkeep H.
  assert (Inv : index_in_range questions s).
  { eapply run_index_in_range; [exact Hkeep| |exact H].
    intros _. cbn. destruct questions; [contradiction | cbn; lia]. }
  split; [now apply Inv|]. apply lookup_lt_is_Some. now apply Inv.
Qed.

(** X15 (the answered count).  After any sequence of events from the initial
    state that does not render the mounted component with another
    [questions] prop, the number of selected answers is at most the number
    of questions. *)
Theorem answered_count_bounded events s sents :
  forallb keeps_questions events = true ->
  run questions events init = Some (s, sents) ->
  answeredCount s <= length questions.
Proof.
  intros Hkeep H.
  destruct (QuizInterfaceFacts.run_sent questions events init s sents Hkeep
              (QuizInterfaceFacts.init_answers_for_questions questions) H)
    as [Inv _].
  unfold answeredCount. rewrite <- (size_dom (D := gset jsstring)).
  etransitivity; [apply subseteq_size, Inv|].
  etransitivity; [apply QuizInterfaceFacts.size_list_to_set_le|].
  now rewrite length_map.
Qed.

(** X16 (one request at a time).  In any sequence of events from the initial
    state, the submissions sent number at most one more than the responses
    received: a second submission is never sent while one is pending. *)
Theorem submissions_wait_for_responses events s sents :
  run questions events init = Some (s, sents) ->
  length sents <= 1 + length (List.filter is_response events).
Proof.
  intros H. apply run_submissions_bounded in H. cbn in H. lia.
Qed.

(** X17 (back and forth).  Where the Next button is offered and moves, Next
    followed by Previous leaves the whole state as it was, selected answers
    included, and sends nothing; likewise Previous followed by Next. *)
Theorem next_previous_round_trip s :
  results s = None ->
  (currentQuestionIndex s + 1 < length questions ->
   run questions [ClickNext; ClickPrevious] s = Some (s, [])) /\
  (0 < currentQuestionIndex s < length questions ->
   run questions [ClickPrevious; ClickNext] s = Some (s, [])).
Proof.
  intros Hr. destruct s as [i a sub r]. cbn in Hr. subst r. split; intros Hi; cbn in Hi.
  - cbn [run step results currentQuestionIndex questions_after].
    destruct (questions !! i) eqn:E1;
      [|apply lookup_ge_None in E1; lia].
    destruct (Nat.eqb (i + 1) (length questions)) eqn:E2;
      [apply Nat.eqb_eq in E2; lia|].
    unfold handleNext. cbn [currentQuestionIndex].
    destruct (Nat.ltb (i + 1) (length questions)) eqn:E3;
      [|apply Nat.ltb_ge in E3; lia].
    cbn [results currentQuestionIndex answers isSubmitting].
    destruct (questions !! (i + 1)) eqn:E4;
      [|apply lookup_ge_None in E4; lia].
    replace (Nat.eqb (i + 1) 0) with false by (symmetry; apply Nat.eqb_neq; lia).
    unfold handlePrevious. cbn [currentQuestionIndex].
    replace (Nat.ltb 0 (i + 1)) with true by (symmetry; apply Nat.ltb_lt; lia).
    cbn. now replace (i + 1 - 1) with i by lia.
  - cbn [run step results currentQuestionIndex questions_after].
    destruct (questions !! i) eqn:E1;
      [|apply lookup_ge_None in E1; lia].
    replace (Nat.eqb i 0) with false by (symmetry; apply Nat.eqb_neq; lia).
    unfold handlePrevious. cbn [currentQuestionIndex].
    replace (Nat.ltb 0 i) with true by (symmetry; apply Nat.ltb_lt; lia).
    cbn [results currentQuestionIndex answers isSubmitting].
    destruct (questions !! (i - 1)) eqn:E4;
      [|apply lookup_ge_None in E4; lia].
    replace (Nat.eqb (i - 1 + 1) (length questions)) with false
      by (symmetry; apply Nat.eqb_neq; lia).
    unfold handleNext. cbn [currentQuestionIndex].
    replace (Nat.ltb (i - 1 + 1) (length questions)) with true
      by (symmetry; apply Nat.ltb_lt; lia).
    cbn. now replace (i - 1 + 1) with i by lia.
Qed.
End RunFacts.

Lemma current_question_always_defined_witness :
  currentQuestionIndex
    {| currentQuestionIndex := 1; answers := ∅; isSubmitting := false;
       results := None |} < length sample_questions /\
  is_Some (sample_questions !!
             currentQuestionIndex
               {| currentQuestionIndex := 1; answers := ∅;
                  isSubmitting := false; results := None |}).
Proof.
  apply (current_question_always_defined sample_questions
           [ClickNext] _ []).
  - discriminate.
  - reflexivity.
  - vm_compute. reflexivity.
Defined.

Lemma answered_count_bounded_witness :
  answeredCount
    {| currentQuestionIndex := 0;
       answers := <[lit "q1" := lit "A"]> ∅;
       isSubmitting := false; results := None |}
  <= length sample_questions.
Proof.
  apply (answered_count_bounded sample_questions
           [SelectOption 1; SelectOption 0] _ []).
  - reflexivity.
  - vm_compute. reflexivity.
Defined.

Lemma submissions_wait_for_responses_witness :
  length [submitted_answers
            {| currentQuestionIndex := 1;
               answers := <[lit "q2" := lit "A"]> (<[lit "q1" := lit "B"]> ∅);
               isSubmitting := false; results := None |}]
  <= 1 + length (List.filter is_response
                   [SelectOption 1; ClickNext; SelectOption 0; ClickSubmit;
                    SelectOption 1]).
Proof.
  apply (submissions_wait_for_responses sample_questions
           [SelectOption 1; ClickNext; SelectOption 0; ClickSubmit;
            SelectOption 1]
           {| currentQuestionIndex := 1;
              answers := <[lit "q2" := lit "B"]> (<[lit "q1" := lit "B"]> ∅);
              isSubmitting := true; results := None |}).
  vm_compute. reflexivity.
Defined.

Lemma next_previous_round_trip_witness :
  let questions := sample_questions ++ sample_questions in
  let s := {| currentQuestionIndex := 1;
              answers := <[lit "q1" := lit "B"]> ∅;
              isSubmitting := false; results := None |} in
  run questions [ClickNext; ClickPrevious] s = Some (s, []) /\
  run questions [ClickPrevious; ClickNext] s = Some (s, []).
Proof.
  cbn zeta.
  destruct (next_previous_round_trip (sample_questions ++ sample_questions)
              {| currentQuestionIndex := 1;
                 answers := <[lit "q1" := lit "B"]> ∅;
                 isSubmitting := false; results := None |} eq_refl)
    as [Hnext Hprevious].
  split; [apply Hnext | apply Hprevious]; cbn; lia.
Defined.

End QuizInterfaceRunFacts.

(** * Counting questions *)

Lemma after_heading_counts line st :
  let st' := on_key_line line
               (on_explanation line (on_answer line (on_option line st))) in
  Scan.questionNumber st' = Scan.questionNumber st /\
  held_questions st' = held_questions st.
Proof.
  cbn zeta.
  assert (Hwith : forall f s,
            Scan.questionNumber (with_current f s) = Scan.questionNumber s /\
            held_questions (with_current f s) = held_questions s).
  { intros f s. split; [reflexivity|]. unfold held_questions. cbn.
    now destruct (Scan.currentQuestion s). }
  assert (H1 : Scan.questionNumber (on_option line st) = Scan.questionNumber st /\
               held_questions (on_option line st) = held_questions st).
  { unfold on_option.
    destruct (match_start re_option_bold line);
      [|destruct (match_start re_option_plain line)]; auto. }
  assert (H2 : forall s, Scan.questionNumber (on_answer line s) = Scan.questionNumber s /\
               held_questions (on_answer line s) = held_questions s).
  { intros s. unfold on_answer. destruct (match_any re_answer line); auto. }
  assert (H3 : forall s, Scan.questionNumber (on_explanation line s) = Scan.questionNumber s /\
               held_questions (on_explanation line s) = held_questions s).
  { intros s. unfold on_explanation. destruct (match_any re_explanation line); auto. }
  assert (H4 : forall s, Scan.questionNumber (on_key_line line s) = Scan.questionNumber s /\
               held_questions (on_key_line line s) = held_questions s).
  { intros s. unfold on_key_line.
    destruct (match_start re_key_line line); [|auto].
    destruct (match_start re_key_entry line); auto. }
  destruct H1 as [A1 B1].
  destruct (H2 (on_option line st)) as [A2 B2].
  destruct (H3 (on_answer line (on_option line st))) as [A3 B3].
  destruct (H4 (on_explanation line (on_answer line (on_option line st)))) as [A4 B4].
  split; congruence.
Qed.

Lemma scan_counts lines : forall st,
  Scan.questionNumber (scan lines st)
  = Scan.questionNumber st + N.of_nat (heading_count lines) /\
  (held_questions (scan lines st)
   <= held_questions st + heading_count lines)%nat.
Proof.
  induction lines as [|raw rest IH]; intros st.
  - cbn. split; lia.
  - cbn [scan]. destruct (IH (step (trim raw) (head rest) st)) as [Hn Hh].
    destruct (after_heading_counts (trim raw)
                (on_heading (trim raw) (head rest) st)) as [An Ah].
    fold (step (trim raw) (head rest) st) in An, Ah.
    unfold heading_count in *. cbn [List.filter].
    unfold on_heading in An, Ah.
    destruct (is_question_heading raw) eqn:Eh; unfold is_question_heading in Eh;
      destruct (match_start re_heading (trim raw)); try discriminate;
      cbn [length].
    + cbn in An. split; [lia|].
      assert (held_questions (step (trim raw) (head rest) st)
              <= held_questions st + 1)%nat; [|lia].
      rewrite Ah. unfold held_questions, finalize. cbn.
      destruct (Scan.currentQuestion st) as [q|]; [|lia].
      destruct (complete q); [rewrite length_app; cbn|]; lia.
    + split; [lia|]. lia.
Qed.

(** X18 (headings and questions).  The counter behind the identifiers ends at
    the number of lines that are question headings, and a document gives at
    most that many questions. *)
Theorem questions_at_most_headings lines :
  Scan.questionNumber (scan lines Scan.init) = N.of_nat (heading_count lines) /\
  (length (parsed_questions lines) <= heading_count lines)%nat.
Proof.
  destruct (scan_counts lines Scan.init) as [Hn Hh]. split; [exact Hn|].
  unfold parsed_questions. cbn zeta. rewrite length_match_answers.
  unfold scanned_questions, finalize. unfold held_questions in Hh. cbn in Hh.
  destruct (Scan.currentQuestion (scan lines Scan.init)) as [q|]; [|lia].
  destruct (complete q); [rewrite length_app; cbn|]; lia.
Qed.

(** * Single lines *)

Lemma lines_single_line content :
  Forall single_line (lines_of content).
Proof. apply split_separator_free. Qed.

Lemma single_line_join (ps : list jsstring) :
  Forall single_line ps -> single_line (join (lit " ") ps).
Proof.
  induction 1 as [|p ps Hp Hps IH]; [constructor|].
  destruct ps as [|p' ps']; [exact Hp|].
  rewrite join_cons_nonempty by discriminate.
  apply Forall_app. split; [exact Hp|].
  apply Forall_app. split; [repeat constructor | exact IH].
Qed.

Lemma Forall_after_title {P : jsstring -> Prop} lines :
  Forall P lines -> Forall P (after_title lines).
Proof.
  induction 1 as [|l ls Hl Hls IH]; [constructor|]. cbn [after_title].
  now destruct (startsWith l (lit "# ")).
Qed.

Lemma Forall_before_questions {P : jsstring -> Prop} lines :
  Forall P lines -> Forall P (before_questions lines).
Proof.
  induction 1 as [|l ls Hl Hls IH]; [constructor|]. cbn [before_questions].
  destruct (includes l questions_marker); [constructor | now constructor].
Qed.

Lemma single_line_description lines :
  Forall single_line lines -> single_line (extract_description lines).
Proof.
  intros H. rewrite extract_description_text.
  unfold description_text, description_lines.
  apply Forall_take, single_line_join.
  apply List.Forall_forall. intros p Hp.
  apply List.in_map_iff in Hp as (l & <- & Hin).
  apply List.filter_In in Hin as [Hin _].
  apply Forall_trim.
  pose proof (Forall_before_questions _ (Forall_after_title _ H)) as Hall.
  rewrite List.Forall_forall in Hall. now apply Hall.
Qed.

Lemma single_line_title lines :
  Forall single_line lines -> single_line (extract_title [] lines).
Proof.
  induction 1 as [|l ls Hl Hls IH]; [constructor|]. cbn [extract_title].
  destruct (startsWith l (lit "# ")); cbn [truthy negb andb]; [|exact IH].
  apply Forall_trim. rewrite remove_all_class.
  apply List.Forall_forall. intros c Hc.
  apply List.filter_In in Hc as [Hc _].
  pose proof (Forall_remove_first _ (lit "# ") _ Hl) as Hall.
  rewrite List.Forall_forall in Hall. now apply Hall.
Qed.

(** X19 (one line each).  The title and the description of a returned quiz hold
    no line feed. *)
Theorem title_and_description_single_line filePath w quiz w' :
  parseQuizFile filePath w = (Some quiz, w') ->
  single_line (title quiz) /\ single_line (description quiz).
Proof.
  intros P. apply parseQuizFile_Some in P as (content & _ & _ & -> & _).
  cbn [title description]. unfold or_else. split.
  - destruct (truthy _); [|vm_compute; repeat constructor].
    apply single_line_title, lines_single_line.
  - destruct (truthy _); [|vm_compute; repeat constructor].
    apply single_line_description, lines_single_line.
Qed.

Lemma title_and_description_single_line_witness :
  single_line (title sample_quiz) /\ single_line (description sample_quiz).
Proof.
  apply (title_and_description_single_line sample_path
           (one_file sample_path sample_doc) sample_quiz
           (one_file sample_path sample_doc)).
  vm_compute. reflexivity.
Defined.

(** * Option texts *)

Lemma line_terminator_is_space c :
  is_line_terminator c = true -> is_space c = true.
Proof.
  unfold is_line_terminator. rewrite !orb_true_iff.
  intros [[[H|H]|H]|H]; apply N.eqb_eq in H; subst c; reflexivity.
Qed.

Lemma not_space_is_dot c : is_space c = false -> is_dot c = true.
Proof.
  intros H. unfold is_dot. destruct (is_line_terminator c) eqn:E; [|reflexivity].
  apply line_terminator_is_space in E. congruence.
Qed.

Lemma skip_while_head p s d u : skip_while p s = d :: u -> p d = false.
Proof.
  induction s as [|c s IH]; cbn [skip_while]; [discriminate|].
  destruct (p c) eqn:E; [exact IH|]. now intros [= <- _].
Qed.

Lemma skip_while_length p s : (length (skip_while p s) <= length s)%nat.
Proof.
  induction s as [|c s IH]; cbn [skip_while]; [lia|].
  destruct (p c); cbn; lia.
Qed.

Lemma all_space_trimEnd s : skip_while is_space s = [] -> trimEnd s = [].
Proof.
  induction s as [|c s IH]; [reflexivity|]. cbn [skip_while trimEnd].
  destruct (is_space c); [|discriminate]. intros H. now rewrite (IH H).
Qed.

(** A greedy [+] stops at the end of the longest run when the continuation
    accepts that. *)
Lemma plus_prefers_longest {A} (p : N -> bool) (k : jsstring -> option A) t :
  forall c, p c = true -> k (skip_while p t) <> None ->
  plus p k (c :: t) = k (skip_while p t).
Proof.
  induction t as [|d t IH]; intros c Hc Hk; cbn [plus skip_while] in *.
  - now rewrite Hc.
  - rewrite Hc. destruct (p d) eqn:Hd.
    + specialize (IH d Hd Hk). cbn [plus] in IH. rewrite Hd in IH.
      rewrite IH. destruct (k (skip_while p t)); [reflexivity | contradiction].
    + reflexivity.
Qed.

Lemma trimEnd_length s : (length (trimEnd s) <= length s)%nat.
Proof.
  induction s as [|c s IH]; [reflexivity|]. cbn [trimEnd].
  destruct (trimEnd s); [destruct (is_space c)|]; cbn in *; lia.
Qed.

Lemma trimEnd_suffix a s :
  trimEnd (a ++ s) = a ++ s -> s <> [] -> trimEnd s = s.
Proof.
  intros H Hs. rewrite trimEnd_app in H.
  destruct (trimEnd s) as [|d t] eqn:E.
  - pose proof (trimEnd_length a) as Hl. rewrite H, length_app in Hl.
    destruct s; [contradiction | cbn in Hl; lia].
  - now apply app_inv_head in H.
Qed.

Lemma trim_tight_nonempty d x : is_space d = false -> trim (d :: x) <> [].
Proof.
  intros Hd. unfold trim. cbn [trimStart]. rewrite Hd. cbn [trimEnd].
  destruct (trimEnd x); [rewrite Hd|]; discriminate.
Qed.

(** The end of the option, explanation and key patterns, [\s+(.+)], on the
    end of a trimmed line: the group starts at the first code unit that is
    not white space. *)
Lemma text_tail_capture a s caps r :
  trimEnd (a ++ s) = a ++ s ->
  run (cat [Plus is_space; Grp (Plus is_dot)]) s caps
    (fun s' caps' => Some (caps', s')) = Some r ->
  exists g, fst r = caps ++ [g] /\ trim g <> [].
Proof.
  intros Htrim H. unfold cat in H. cbn [foldr run] in H.
  destruct s as [|c t]; [discriminate|].
  apply trimEnd_suffix in Htrim; [|discriminate].
  assert (Hc : is_space c = true).
  { cbn [plus] in H. destruct (is_space c); [reflexivity | discriminate]. }
  destruct (skip_while is_space t) as [|d u] eqn:Eu.
  - assert (E : skip_while is_space (c :: t) = []) by (cbn; now rewrite Hc).
    apply all_space_trimEnd in E. rewrite E in Htrim. discriminate.
  - pose proof (skip_while_head _ _ _ _ Eu) as Hd.
    pose proof (not_space_is_dot _ Hd) as Hdot.
    set (k' := fun s' : jsstring =>
                 if startsWith s' []
                 then Some (caps ++ [take (length (d :: u) - length s') (d :: u)],
                            drop (length (@nil N)) s')
                 else None).
    assert (Hk' : forall s', k' s' <> None).
    { intros s'. unfold k'. now destruct s'. }
    assert (Hinner : plus is_dot k' (d :: u) = k' (skip_while is_dot u)).
    { apply plus_prefers_longest; [exact Hdot | apply Hk']. }
    rewrite (plus_prefers_longest is_space _ t c Hc) in H.
    + rewrite Eu in H. fold k' in H. rewrite Hinner in H.
      unfold k' in H.
      destruct (startsWith (skip_while is_dot u) []); [|discriminate].
      injection H as <-. cbn [fst]. eexists. split; [reflexivity|].
      pose proof (skip_while_length is_dot u) as Hl. cbn [length].
      destruct (S (length u) - length (skip_while is_dot u))%nat as [|n] eqn:En;
        [lia|].
      cbn [take]. now apply trim_tight_nonempty.
    + rewrite Eu. fold k'. rewrite Hinner. apply Hk'.
Qed.

Lemma run_seq {A} r1 r2 s caps (k : jsstring -> list jsstring -> option A) :
  run (Seq r1 r2) s caps k
  = run r1 s caps (fun s' caps' => run r2 s' caps' k).
Proof. reflexivity. Qed.

Ltac peel_prefix H :=
  rewrite run_seq in H;
  apply run_sound in H as (? & ? & ? & -> & ? & H);
  cbv beta in H.

Lemma option_plain_text line m :
  trimEnd line = line ->
  match_start re_option_plain line = Some m ->
  trim (group 2 m) <> [].
Proof.
  intros Htrim H. unfold match_start, match_here in H.
  destruct (run re_option_plain line [] _) as [r|] eqn:E; [|discriminate].
  injection H as <-.
  change re_option_plain
    with (Seq (Grp (Cls is_A_to_D))
            (Seq (Lit (lit ")")) (cat [Plus is_space; Grp (Plus is_dot)]))) in E.
  peel_prefix E. peel_prefix E. invert_matches.
  rewrite !app_assoc in Htrim.
  destruct (text_tail_capture _ _ _ _ Htrim E) as (g & -> & Hg). exact Hg.
Qed.

Lemma option_bold_text line m :
  trimEnd line = line ->
  match_start re_option_bold line = Some m ->
  trim (group 2 m) <> [].
Proof.
  intros Htrim H. unfold match_start, match_here in H.
  destruct (run re_option_bold line [] _) as [r|] eqn:E; [|discriminate].
  injection H as <-.
  change re_option_bold
    with (Seq (Lit (lit "**"))
            (Seq (Grp (Cls is_A_to_D))
               (Seq (Lit (lit ")**"))
                  (cat [Plus is_space; Grp (Plus is_dot)])))) in E.
  peel_prefix E. peel_prefix E. peel_prefix E. invert_matches.
  rewrite !app_assoc in Htrim.
  destruct (text_tail_capture _ _ _ _ Htrim E) as (g & -> & Hg). exact Hg.
Qed.

Lemma scan_options_have_text_with_current f st :
  (forall q, options_have_text q -> options_have_text (f q)) ->
  scan_options_have_text st -> scan_options_have_text (with_current f st).
Proof.
  intros Hf (Hqs & Hcur). split; [exact Hqs|].
  intros q Hq. cbn in Hq.
  destruct (Scan.currentQuestion st) as [q0|]; [|discriminate].
  injection Hq as <-. apply Hf, Hcur. reflexivity.
Qed.

Lemma scan_options_have_text_step line next st :
  trimEnd line = line ->
  scan_options_have_text st -> scan_options_have_text (step line next st).
Proof.
  intros Htrim H. unfold step.
  assert (H0 : scan_options_have_text (on_heading line next st)).
  { destruct H as (Hqs & Hcur). unfold on_heading.
    destruct (match_start re_heading line); [|exact (conj Hqs Hcur)].
    split; cbn.
    - unfold finalize. destruct (Scan.currentQuestion st) as [q|]; [|exact Hqs].
      destruct (complete q); [|exact Hqs].
      apply Forall_app. split; [exact Hqs|].
      constructor; [now apply Hcur | constructor].
    - intros q [= <-]. constructor. }
  assert (H1 : scan_options_have_text
                 (on_option line (on_heading line next st))).
  { unfold on_option.
    assert (Hpush : forall m, trim (group 2 m) <> [] ->
              scan_options_have_text
                (with_current
                   (push_option {| key := group 1 m; text := trim (group 2 m) |})
                   (on_heading line next st))).
    { intros m Hm. apply scan_options_have_text_with_current; [|exact H0].
      intros q Hq. unfold options_have_text. cbn. apply Forall_app.
      split; [exact Hq|]. constructor; [|constructor].
      split; [exact Hm | apply trim_is_trimmed]. }
    destruct (match_start re_option_bold line) as [m|] eqn:Eb.
    - apply Hpush. eapply option_bold_text; eassumption.
    - destruct (match_start re_option_plain line) as [m|] eqn:Ep; [|exact H0].
      apply Hpush. eapply option_plain_text; eassumption. }
  assert (H2 : scan_options_have_text
                 (on_answer line (on_option line (on_heading line next st)))).
  { unfold on_answer. destruct (match_any re_answer line); [|exact H1].
    now apply scan_options_have_text_with_current. }
  assert (H3 : scan_options_have_text
                 (on_explanation line
                    (on_answer line (on_option line (on_heading line next st))))).
  { unfold on_explanation. destruct (match_any re_explanation line); [|exact H2].
    now apply scan_options_have_text_with_current. }
  unfold on_key_line.
  destruct (match_start re_key_line line); [|exact H3].
  destruct (match_start re_key_entry line); exact H3.
Qed.

Lemma scan_options_have_text_scan lines : forall st,
  scan_options_have_text st -> scan_options_have_text (scan lines st).
Proof.
  induction lines as [|raw rest IH]; intros st H; [exact H|].
  cbn [scan]. apply IH. apply scan_options_have_text_step; [|exact H].
  apply trimEnd_trim.
Qed.

Lemma parsed_questions_options_have_text lines :
  Forall options_have_text (parsed_questions lines).
Proof.
  unfold parsed_questions. cbn zeta.
  destruct (scan_options_have_text_scan lines Scan.init) as (Hqs & Hcur).
  { split; [constructor | discriminate]. }
  apply Forall_imap.
  - intros i q Hq.
    destruct (Scan.answers (scan lines Scan.init) !! N.of_nat (i + 1));
      exact Hq.
  - unfold scanned_questions, finalize.
    destruct (Scan.currentQuestion (scan lines Scan.init)) as [q|]; [|exact Hqs].
    destruct (complete q); [|exact Hqs].
    apply Forall_app. split; [exact Hqs|].
    constructor; [now apply Hcur | constructor].
Qed.

(** X20 (option texts).  In every quiz the parser returns, each option of each
    question has a text that is not empty and has no white space at either
    end. *)
Theorem option_texts_not_empty filePath w quiz w' :
  parseQuizFile filePath w = (Some quiz, w') ->
  Forall options_have_text (questions quiz).
Proof.
  intros P. apply parseQuizFile_Some in P as (content & _ & _ & -> & _).
  apply parsed_questions_options_have_text.
Qed.

Lemma option_texts_not_empty_witness :
  Forall options_have_text (questions sample_quiz).
Proof.
  apply (option_texts_not_empty sample_path (one_file sample_path sample_doc)
           sample_quiz (one_file sample_path sample_doc)).
  vm_compute. reflexivity.
Defined.

(** * The chapter-completion button *)

Module CompleteChapterButtonFacts.
Import CompleteChapterButton.
Local Open Scope nat_scope.

Lemma step_posts s e s' sent :
  step s e = Some (s', sent) ->
  length (List.filter is_post (option_list sent)) + posts_allowed s'
  <= posts_allowed s + (if is_complete_response e then 1 else 0).
Proof.
  unfold posts_allowed. destruct e; cbn; intros H.
  - destruct (str_eqb _ _); injection H as <- <-; cbn; lia.
  - injection H as <- <-. destruct ok; cbn; lia.
  - injection H as <- <-. cbn. lia.
  - unfold button_enabled in H.
    destruct (isChecking s), (isCompleted s), (isLoading s); cbn in H;
      try discriminate. injection H as <- <-. cbn. lia.
  - injection H as <- <-. cbn. destruct (isLoading s); lia.
  - injection H as <- <-. cbn. destruct (isLoading s); lia.
Qed.

Lemma run_posts events : forall s0 s sents,
  run events s0 = Some (s, sents) ->
  length (List.filter is_post sents) + posts_allowed s
  <= posts_allowed s0 + length (List.filter is_complete_response events).
Proof.
  induction events as [|e events IH]; intros s0 s sents H.
  - cbn in H. injection H as <- <-. cbn. lia.
  - cbn [run] in H.
    destruct (step s0 e) as [[s1 sent]|] eqn:Hstep; [|discriminate].
    destruct (run events s1) as [[s2 rest]|] eqn:Hrest; [|discriminate].
    injection H as <- <-. specialize (IH _ _ _ Hrest).
    apply step_posts in Hstep.
    rewrite List.filter_app, length_app. cbn [List.filter].
    destruct (is_complete_response e); cbn [length]; lia.
Qed.

(** X21 (one completion at a time).  From the mounted state, the completion
    requests sent number at most one more than the completion responses
    received, whatever else happens in between. *)
Theorem completions_wait_for_responses chapter events s sents :
  run events (init chapter) = Some (s, sents) ->
  length (List.filter is_post sents)
  <= 1 + length (List.filter is_complete_response events).
Proof.
  intros H. apply run_posts in H. cbn in H. lia.
Qed.

Lemma completions_wait_for_responses_witness :
  length (List.filter is_post
            [GetProgress (lit "ch2"); PostComplete (lit "ch2")])
  <= 1 + length (List.filter is_complete_response
                   [CheckResolved true false; ChapterChanged (lit "ch2");
                    ClickComplete; CheckResolved false false]).
Proof.
  apply (completions_wait_for_responses (lit "ch1")
           [CheckResolved true false; ChapterChanged (lit "ch2");
            ClickComplete; CheckResolved false false]
           {| chapterId := lit "ch2"; isCompleted := false; isLoading := true;
              isChecking := false |}).
  vm_compute. reflexivity.
Defined.

(** X22 (completed stays completed).  Once the chapter is shown as completed,
    it stays so and no completion request is sent, until a check answers
    that the chapter is not completed. *)
Theorem completed_sends_nothing s0 events s sents :
  isCompleted s0 = true ->
  Forall (fun e => is_not_completed_check e = false) events ->
  run events s0 = Some (s, sents) ->
  isCompleted s = true /\ List.filter is_post sents = [].
Proof.
  revert s0 s sents.
  induction events as [|e events IH]; intros s0 s sents Hc Hev H.
  - cbn in H. injection H as <- <-. now split.
  - inversion Hev as [|? ? He Hrest]; subst. cbn [run] in H.
    destruct (step s0 e) as [[s1 sent]|] eqn:Hstep; [|discriminate].
    destruct (run events s1) as [[s2 rest]|] eqn:Hrun; [|discriminate].
    injection H as <- <-.
    assert (Hs1 : isCompleted s1 = true /\ List.filter is_post (option_list sent) = []).
    { destruct e; cbn in Hstep.
      - destruct (str_eqb _ _); injection Hstep as <- <-; now split.
      - injection Hstep as <- <-. destruct ok; [|now split].
        destruct completed; [now split | discriminate].
      - injection Hstep as <- <-. now split.
      - unfold button_enabled in Hstep. rewrite Hc in Hstep.
        destruct (isChecking s0); discriminate.
      - injection Hstep as <- <-. destruct ok; now split.
      - injection Hstep as <- <-. now split. }
    destruct Hs1 as [Hc1 Hsent].
    destruct (IH _ _ _ Hc1 Hrest Hrun) as [Hc2 Hposts].
    split; [exact Hc2|]. now rewrite List.filter_app, Hsent, Hposts.
Qed.

Lemma completed_sends_nothing_witness :
  isCompleted {| chapterId := lit "ch2"; isCompleted := true;
                 isLoading := false; isChecking := false |} = true /\
  List.filter is_post [GetProgress (lit "ch2")] = [].
Proof.
  apply (completed_sends_nothing
           {| chapterId := lit "ch1"; isCompleted := true; isLoading := true;
              isChecking := false |}
           [CompleteResolved true; ChapterChanged (lit "ch2"); CheckThrew]).
  - reflexivity.
  - repeat constructor.
  - vm_compute. reflexivity.
Defined.

End CompleteChapterButtonFacts.

(** * Chapter navigation *)

Module BookReaderPageFacts.
Import BookReaderPage.
Local Open Scope Z_scope.

Lemma str_eqb_eq a b : str_eqb a b = true <-> a = b.
Proof.
  revert b. induction a as [|x a IH]; intros [|y b]; cbn; try easy.
  rewrite andb_true_iff, IH. unfold code_eqb. rewrite N.eqb_eq.
  split; [intros [-> ->]; reflexivity | intros [= -> ->]; now split].
Qed.

Lemma indexOf_range l x : -1 <= indexOf l x < Z.of_nat (length l).
Proof.
  induction l as [|y l IH]; cbn [indexOf length]; [lia|].
  destruct (str_eqb y x); [lia|].
  destruct (indexOf l x <? 0) eqn:E; [lia|]. apply Z.ltb_ge in E. lia.
Qed.

Lemma indexOf_unlisted l x : ~ In x l -> indexOf l x = -1.
Proof.
  induction l as [|y l IH]; intros H; [reflexivity|]. cbn [indexOf].
  destruct (str_eqb y x) eqn:E.
  - apply str_eqb_eq in E. subst. destruct H. now left.
  - rewrite IH; [reflexivity|]. intros Hin. apply H. now right.
Qed.

Lemma indexOf_listed l x :
  0 <= indexOf l x -> l !! Z.to_nat (indexOf l x) = Some x.
Proof.
  induction l as [|y l IH]; cbn [indexOf]; [lia|].
  destruct (str_eqb y x) eqn:E.
  - apply str_eqb_eq in E. now subst.
  - destruct (indexOf l x <? 0) eqn:El; [lia|]. apply Z.ltb_ge in El.
    intros _. replace (Z.to_nat (indexOf l x + 1)) with (S (Z.to_nat (indexOf l x))) by lia.
    cbn. now apply IH.
Qed.

Lemma indexOf_In l x : In x l -> 0 <= indexOf l x.
Proof.
  induction l as [|y l IH]; [contradiction|]. cbn [indexOf].
  destruct (str_eqb y x) eqn:E; [lia|].
  intros [->|Hin].
  - assert (str_eqb x x = true) by now apply str_eqb_eq. congruence.
  - specialize (IH Hin). destruct (indexOf l x <? 0) eqn:El; [|lia].
    apply Z.ltb_lt in El. lia.
Qed.

Lemma indexOf_NoDup l : forall i x,
  NoDup l -> l !! i = Some x -> indexOf l x = Z.of_nat i.
Proof.
  induction l as [|y l IH]; intros i x Hnd Hi; [discriminate|].
  inversion Hnd as [|? ? Hy Hl]; subst. cbn [indexOf].
  destruct i as [|i]; cbn in Hi.
  - injection Hi as ->. assert (str_eqb x x = true) by now apply str_eqb_eq.
    now rewrite H.
  - destruct (str_eqb y x) eqn:E.
    + apply str_eqb_eq in E. subst y. destruct Hy.
      apply list_elem_of_lookup. eauto.
    + rewrite (IH i x Hl Hi).
      destruct (Z.of_nat i <? 0) eqn:El; [apply Z.ltb_lt in El|]; lia.
Qed.

Section NavigationFacts.
Variable allChapters : list jsstring.

(** X23 (an unlisted id).  When the active id is not in the chapter list, the
    Previous button is enabled and does nothing, and the Next button leads to
    the first chapter; Next is disabled only when there is no chapter. *)
Theorem navigation_from_unlisted activeId :
  ~ In activeId allChapters ->
  previous_disabled allChapters activeId = false /\
  previous_handler allChapters activeId = Some activeId /\
  next_handler allChapters activeId
  = Some (match allChapters with [] => activeId | first :: _ => first end) /\
  (next_disabled allChapters activeId = true <-> allChapters = []).
Proof.
  intros H. apply indexOf_unlisted in H.
  unfold previous_disabled, previous_handler, next_disabled, next_handler.
  rewrite H. cbn zeta. split; [reflexivity|]. split; [reflexivity|].
  destruct allChapters as [|first rest]; cbn [length].
  - split; [reflexivity|]. split; reflexivity.
  - replace (-1 <? Z.of_nat (S (length rest)) - 1) with true
      by (symmetry; apply Z.ltb_lt; lia).
    split; [reflexivity|]. split; [|discriminate].
    intros E. apply Z.eqb_eq in E. lia.
Qed.

(** X24 (staying in the list).  From a listed chapter, the Next and Previous
    handlers always set a defined id, and it is a listed chapter. *)
Theorem navigation_stays_listed activeId :
  In activeId allChapters ->
  (exists next, next_handler allChapters activeId = Some next /\
                In next allChapters) /\
  (exists previous, previous_handler allChapters activeId = Some previous /\
                    In previous allChapters).
Proof.
  intros Hin. pose proof (indexOf_In _ _ Hin) as H0.
  pose proof (indexOf_range allChapters activeId) as Hr.
  unfold next_handler, previous_handler, at_index. cbn zeta. split.
  - destruct (_ <? _) eqn:E; [|now exists activeId].
    apply Z.ltb_lt in E.
    replace (indexOf allChapters activeId + 1 <? 0) with false
      by (symmetry; apply Z.ltb_ge; lia).
    destruct (allChapters !! Z.to_nat (indexOf allChapters activeId + 1))
      as [next|] eqn:En.
    + exists next. split; [reflexivity|].
      apply list_elem_of_In, list_elem_of_lookup. eauto.
    + apply lookup_ge_None in En. lia.
  - destruct (0 <? _) eqn:E; [|now exists activeId].
    apply Z.ltb_lt in E.
    replace (indexOf allChapters activeId - 1 <? 0) with false
      by (symmetry; apply Z.ltb_ge; lia).
    destruct (allChapters !! Z.to_nat (indexOf allChapters activeId - 1))
      as [previous|] eqn:Ep.
    + exists previous. split; [reflexivity|].
      apply list_elem_of_In, list_elem_of_lookup. eauto.
    + apply lookup_ge_None in Ep. lia.
Qed.

(** X25 (neighbours).  When no chapter id is listed twice, Next from the
    chapter at position [i] leads to the chapter at [i + 1], and Previous
    from there leads back. *)
Theorem next_then_previous_chapter (i : nat) here there :
  NoDup allChapters ->
  allChapters !! i = Some here ->
  allChapters !! (i + 1)%nat = Some there ->
  next_handler allChapters here = Some there /\
  previous_handler allChapters there = Some here /\
  next_disabled allChapters here = false /\
  previous_disabled allChapters there = false.
Proof.
  intros Hnd Hi Hj.
  pose proof (indexOf_NoDup _ _ _ Hnd Hi) as Ei.
  pose proof (indexOf_NoDup _ _ _ Hnd Hj) as Ej.
  pose proof (lookup_lt_Some _ _ _ Hj) as Hlen.
  unfold next_handler, previous_handler, next_disabled, previous_disabled,
    at_index. rewrite Ei, Ej. cbn zeta.
  replace (Z.of_nat i <? Z.of_nat (length allChapters) - 1) with true
    by (symmetry; apply Z.ltb_lt; lia).
  replace (Z.of_nat i + 1 <? 0) with false by (symmetry; apply Z.ltb_ge; lia).
  replace (Z.to_nat (Z.of_nat i + 1)) with (i + 1)%nat by lia.
  replace (0 <? Z.of_nat (i + 1)) with true by (symmetry; apply Z.ltb_lt; lia).
  replace (Z.of_nat (i + 1) - 1 <? 0) with false by (symmetry; apply Z.ltb_ge; lia).
  replace (Z.to_nat (Z.of_nat (i + 1) - 1)) with i by lia.
  repeat split; try assumption; apply Z.eqb_neq; lia.
Qed.
End NavigationFacts.

Lemma navigation_from_unlisted_witness :
  previous_disabled [lit "intro"; lit "ch1"] (lit "preface/welcome") = false /\
  previous_handler [lit "intro"; lit "ch1"] (lit "preface/welcome")
  = Some (lit "preface/welcome") /\
  next_handler [lit "intro"; lit "ch1"] (lit "preface/welcome")
  = Some (lit "intro") /\
  (next_disabled [lit "intro"; lit "ch1"] (lit "preface/welcome") = true
   <-> [lit "intro"; lit "ch1"] = []).
Proof.
  apply (navigation_from_unlisted [lit "intro"; lit "ch1"] (lit "preface/welcome")).
  intros [H|[H|[]]]; discriminate.
Defined.

Lemma navigation_stays_listed_witness :
  (exists next, next_handler [lit "intro"; lit "ch1"] (lit "ch1") = Some next /\
                In next [lit "intro"; lit "ch1"]) /\
  (exists previous,
     previous_handler [lit "intro"; lit "ch1"] (lit "ch1") = Some previous /\
     In previous [lit "intro"; lit "ch1"]).
Proof.
  apply (navigation_stays_listed [lit "intro"; lit "ch1"] (lit "ch1")).
  right. left. reflexivity.
Defined.

Lemma next_then_previous_chapter_witness :
  next_handler [lit "intro"; lit "ch1"; lit "ch2"] (lit "ch1") = Some (lit "ch2") /\
  previous_handler [lit "intro"; lit "ch1"; lit "ch2"] (lit "ch2")
  = Some (lit "ch1") /\
  next_disabled [lit "intro"; lit "ch1"; lit "ch2"] (lit "ch1") = false /\
  previous_disabled [lit "intro"; lit "ch1"; lit "ch2"] (lit "ch2") = false.
Proof.
  apply (next_then_previous_chapter [lit "intro"; lit "ch1"; lit "ch2"] 1).
  - repeat constructor; rewrite ?list_elem_of_In; cbn; intuition discriminate.
  - reflexivity.
  - reflexivity.
Defined.

End BookReaderPageFacts.

(** * What is submitted *)

Module QuizInterfaceAnswerFacts.
Import QuizInterface QuizInterfaceRuns QuizInterfaceAnswers.

Section AnswerFacts.
Variable questions : list QuizQuestion.

Lemma step_answers_are_options s e s' sent :
  answers_are_options questions s ->
  step questions s e = Some (s', sent) ->
  answers_are_options questions s' /\
  forall payload, sent = Some payload ->
    Forall (fun a => is_option_of questions (question_id a) (selected_answer a))
      payload.
Proof.
  unfold answers_are_options. intros Inv H.
  apply QuizInterfaceRunFacts.step_cases in H. destruct e.
  - destruct H as (_ & -> & cq & opt & Hcq & Hopt & ->). split; [|discriminate].
    cbn. apply map_Forall_insert_2; [|exact Inv].
    exists cq, opt. repeat split.
    + apply list_elem_of_In, list_elem_of_lookup. eauto.
    + apply list_elem_of_In, list_elem_of_lookup. eauto.
  - destruct H as (_ & -> & _ & ->). split; [|discriminate].
    unfold handleNext. now destruct (Nat.ltb _ _).
  - destruct H as (_ & -> & _ & ->). split; [|discriminate].
    unfold handlePrevious. now destruct (Nat.ltb _ _).
  - destruct H as (_ & _ & _ & -> & ->). split; [exact Inv|].
    intros payload [= <-]. unfold submitted_answers.
    apply List.Forall_forall. intros a Ha.
    apply List.in_map_iff in Ha as ([qid key] & <- & Hin). cbn.
    apply list_elem_of_In, elem_of_map_to_list in Hin.
    exact (Inv _ _ Hin).
  - destruct H as (_ & -> & ->). split; [|discriminate].
    cbn. apply map_Forall_empty.
  - destruct H as (-> & ->). split; [exact Inv | discriminate].
  - destruct H as (-> & ->). split; [exact Inv | discriminate].
  - destruct H as (-> & ->). split; [exact Inv | discriminate].
Qed.

Lemma run_answers_are_options events : forall s0 s sents,
  forallb keeps_questions events = true ->
  answers_are_options questions s0 ->
  run questions events s0 = Some (s, sents) ->
  answers_are_options questions s /\
  Forall (Forall (fun a =>
                    is_option_of questions (question_id a) (selected_answer a)))
    sents.
Proof.
  induction events as [|e events IH]; intros s0 s sents Hkeep Inv H.
  - cbn in H. injection H as <- <-. split; [exact Inv | constructor].
  - cbn [run] in H.
    cbn [forallb] in Hkeep. apply andb_true_iff in Hkeep as [He Hkeep].
    destruct (step questions s0 e) as [[s1 sent]|] eqn:Hstep; [|discriminate].
    replace (questions_after questions e) with questions in H
      by (destruct e; [reflexivity..|discriminate]).
    destruct (run questions events s1) as [[s2 rest]|] eqn:Hrest; [|discriminate].
    injection H as <- <-.
    destruct (step_answers_are_options _ _ _ _ Inv Hstep) as [Inv1 Hsent].
    destruct (IH _ _ _ Hkeep Inv1 Hrest) as [Inv2 Hall]. split; [exact Inv2|].
    destruct sent as [payload|]; [|exact Hall].
    cbn. constructor; [now apply Hsent | exact Hall].
Qed.

(** X26 (submitted answers).  In every submission sent after any sequence of
    events from the initial state that does not render the mounted component
    with another [questions] prop, each entry names a question of the quiz
    and gives the key of one of that question's options. *)
Theorem submitted_answers_are_options events s sents :
  forallb keeps_questions events = true ->
  run questions events init = Some (s, sents) ->
  Forall (Forall (fun a =>
                    is_option_of questions (question_id a) (selected_answer a)))
    sents.
Proof.
  intros Hkeep H. eapply run_answers_are_options; [exact Hkeep| |exact H].
  unfold answers_are_options. cbn. apply map_Forall_empty.
Qed.
End AnswerFacts.

Lemma submitted_answers_are_options_witness :
  Forall (Forall (fun a =>
                    is_option_of sample_questions (question_id a)
                      (selected_answer a)))
    [submitted_answers
       {| currentQuestionIndex := 1;
          answers := <[lit "q2" := lit "A"]> (<[lit "q1" := lit "B"]> ∅);
          isSubmitting := false; results := None |}].
Proof.
  apply (submitted_answers_are_options sample_questions
           [SelectOption 1; ClickNext; SelectOption 0; ClickSubmit]
           {| currentQuestionIndex := 1;
              answers := <[lit "q2" := lit "A"]> (<[lit "q1" := lit "B"]> ∅);
              isSubmitting := true; results := None |}).
  - reflexivity.
  - vm_compute. reflexivity.
Defined.

End QuizInterfaceAnswerFacts.
